(** * PSAMM Bayesian model mapping: a shallow embedding of [psamm/bayesian.py]

    The development follows the source function by function.  Python floats
    (binary64) and numpy float64 values are idealised as real numbers, with
    [np.log] and [np.exp] as [ln] and [exp]; a scalar division whose divisor
    is zero raises [ZeroDivisionError] as in Python, a pandas or numpy
    division whose divisor is zero yields no finite number.  A Python [set]
    is a duplicate-free list in its iteration order, a pandas Series indexed
    by pairs is a finite map, a DataFrame is the list of its rows in index
    order.  [multiprocessing.Pool.map] is the plain map over its tasks, in
    their order, when the chunk size is at least one; with a chunk size of 0
    it runs no task and returns [None] for every task.  The log file of a
    pass is left out.

    The helpers of [psamm.bayesian_util] ([id_equals], [name_equals],
    [formula_equals]) are parameters of the development. *)

From Stdlib Require Import Reals Lra Permutation.
From stdpp Require Import base option list sorting gmap strings.

Open Scope R_scope.

(** ** Python exceptions *)

Inductive pyerror : Set :=
  | ZeroDivisionError
  | TypeError.

Inductive exc (A : Type) : Type :=
  | Ok (a : A)
  | Raise (e : pyerror).

Arguments Ok {A} a.
Arguments Raise {A} e.

#[global] Instance exc_ret : MRet exc := fun A a => Ok a.

#[global] Instance exc_bind : MBind exc := fun A B k m =>
  match m with
  | Ok a => k a
  | Raise e => Raise e
  end.

(** A comprehension or a map over tasks whose body may raise stops at the
    first exception. *)
Fixpoint exc_map {A B : Type} (f : A -> exc B) (l : list A) : exc (list B) :=
  match l with
  | [] => Ok []
  | a :: l' => b ← f a; bs ← exc_map f l'; Ok (b :: bs)
  end.

(** ** The pool of workers *)

(** [pool.map(func, tasks, chunksize=chunksize)].  With a chunk size of at
    least one every task is run and the results come in the order of the
    tasks; an exception of a task is raised by the call.  With a chunk size
    of 0 no task is handed to a worker and the call returns a list that
    holds [None] for every task. *)
Definition pool_map {A B : Type} (chunksize : nat) (func : A -> exc B)
    (tasks : list A) : exc (list (option B)) :=
  match chunksize with
  | O => Ok (replicate (length tasks) None)
  | S _ => exc_map (fun task => b ← func task; Ok (Some b)) tasks
  end.

(** [parallel_equel]: [func] applied to the unpacked [params], for the
    comparators of [psamm.bayesian_util], which return a truth value. *)
Definition parallel_equel {P : Type} (tasks : (P -> bool) * P) : exc bool :=
  let '(func, params) := tasks in Ok (func params).

(** ** Numbers *)

(** Python's [x / y] on floats. *)
Definition py_div (x y : R) : exc R :=
  if Req_dec_T y 0 then Raise ZeroDivisionError else Ok (x / y).

(** pandas' and numpy's [x / y]: inf or nan, hence no finite value, when the
    divisor is zero. *)
Definition np_div (x y : R) : option R :=
  if Req_dec_T y 0 then None else Some (x / y).

(** [sum(result)] over truth values, which count as 0 and 1: [None], the
    entry of a task that was not run, cannot be added to a number. *)
Fixpoint sum_from (start : R) (result : list (option bool)) : exc R :=
  match result with
  | [] => Ok start
  | Some b :: result' => sum_from (start + (if b then 1 else 0)) result'
  | None :: _ => Raise TypeError
  end.

Definition py_sum (result : list (option bool)) : exc R := sum_from 0 result.

(** Python's [max(0, x)]. *)
Definition py_max0 (x : R) : R :=
  if Rlt_dec 0 x then x else 0.

(** ** Entities *)

Record Compound : Type := mkCompound {
  c_id : string;
  c_name : option string;
  c_charge : option Z;
  c_formula : option string;
  c_kegg : option string
}.

(** An equation is the list [equation.compounds] of (compound name, value)
    pairs: negative values on the left side, positive on the right. *)
Abbreviation Equation := (list (string * R)).

Record Reaction : Type := mkReaction {
  r_id : string;
  r_name : option string;
  r_equation : option Equation;
  r_genes : option (gset string)
}.

(** A likelihood pair (p_match, p_no_match). *)
Definition lh : Type := (R * R)%type.

(** The compound posterior Series [cpd_pred], indexed by pairs of names. *)
Abbreviation cpd_table := (gmap (string * string) R).

(** ** Per-channel likelihood functions *)

Section Likelihoods.

(** The comparators of [psamm.bayesian_util], which the likelihood functions
    call on the attributes as they are, [None] included. *)
Variable id_equals : string -> string -> bool.
Variable name_equals : option string -> option string -> bool.
Variable formula_equals :
  option string -> option string -> option Z -> option Z -> bool.

Definition compound_id_likelihood
    (c1 c2 : Compound) (compound_prior compound_id_marg : R) : exc lh :=
  if id_equals (c_id c1) (c_id c2) then
    let p_match := 65 / 100 in
    let p_marg := compound_id_marg in
    q ← py_div (p_marg - p_match * compound_prior) (1 - compound_prior);
    Ok (p_match, py_max0 q)
  else
    let p_match := 35 / 100 in
    let p_marg := 1 - compound_id_marg in
    q ← py_div (p_marg - p_match * compound_prior) (1 - compound_prior);
    Ok (p_match, py_max0 q).

Definition compound_name_likelihood
    (c1 c2 : Compound) (compound_prior compound_name_marg : R) : exc lh :=
  if name_equals (c_name c1) (c_name c2) then
    let p_match := 60 / 100 in
    let p_marg := compound_name_marg in
    q ← py_div (p_marg - p_match * compound_prior) (1 - compound_prior);
    Ok (p_match, py_max0 q)
  else
    let p_match := 40 / 100 in
    let p_marg := 1 - compound_name_marg in
    q ← py_div (p_marg - p_match * compound_prior) (1 - compound_prior);
    Ok (p_match, py_max0 q).

Definition compound_charge_likelihood
    (c1 c2 : Compound) (compound_prior : R)
    (compound_charge_equal_marg compound_charge_not_equal_marg : R)
    : exc lh :=
  match c_charge c1, c_charge c2 with
  | Some z1, Some z2 =>
      if bool_decide (z1 = z2) then
        let p_match := 9 / 10 in
        q ← py_div (compound_charge_equal_marg - p_match * compound_prior)
                   (1 - compound_prior);
        Ok (p_match, py_max0 q)
      else
        let p_match := 1 / 10 in
        q ← py_div (compound_charge_not_equal_marg - p_match * compound_prior)
                   (1 - compound_prior);
        Ok (p_match, py_max0 q)
  | _, _ => Ok (1, 1)
  end.

Definition compound_formula_likelihood
    (c1 c2 : Compound) (compound_prior : R)
    (compound_formula_equal_marg compound_formula_not_equal_marg : R)
    : exc lh :=
  match c_formula c1, c_formula c2 with
  | Some _, Some _ =>
      if formula_equals (c_formula c1) (c_formula c2)
                        (c_charge c1) (c_charge c2) then
        let p_match := 9 / 10 in
        q ← py_div (compound_formula_equal_marg - p_match * compound_prior)
                   (1 - compound_prior);
        Ok (p_match, py_max0 q)
      else
        let p_match := 1 / 10 in
        q ← py_div (compound_formula_not_equal_marg - p_match * compound_prior)
                   (1 - compound_prior);
        Ok (p_match, py_max0 q)
  | _, _ => Ok (1, 1)
  end.

Definition compound_kegg_likelihood
    (c1 c2 : Compound) (compound_prior : R)
    (compound_kegg_equal_marg compound_kegg_not_equal_marg : R) : exc lh :=
  match c_kegg c1, c_kegg c2 with
  | Some k1, Some k2 =>
      if bool_decide (k1 = k2) then
        let p_match := 65 / 100 in
        q ← py_div (compound_kegg_equal_marg - p_match * compound_prior)
                   (1 - compound_prior);
        Ok (p_match, py_max0 q)
      else
        let p_match := 35 / 100 in
        q ← py_div (compound_kegg_not_equal_marg - p_match * compound_prior)
                   (1 - compound_prior);
        Ok (p_match, py_max0 q)
  | _, _ => Ok (1, 1)
  end.

Definition reaction_id_likelihood
    (r1 r2 : Reaction) (reaction_prior : R)
    (reaction_id_equal_marg reaction_id_not_equal_marg : R) : exc lh :=
  if id_equals (r_id r1) (r_id r2) then
    let p_match := 52 / 100 in
    q ← py_div (reaction_id_equal_marg - p_match * reaction_prior)
               (1 - reaction_prior);
    Ok (p_match, py_max0 q)
  else
    let p_match := 48 / 100 in
    q ← py_div (reaction_id_not_equal_marg - p_match * reaction_prior)
               (1 - reaction_prior);
    Ok (p_match, py_max0 q).

Definition reaction_name_likelihood
    (r1 r2 : Reaction) (reaction_prior reaction_name_marg : R) : exc lh :=
  if name_equals (r_name r1) (r_name r2) then
    let p_match := 59 / 100 in
    q ← py_div (reaction_name_marg - p_match * reaction_prior)
               (1 - reaction_prior);
    Ok (p_match, py_max0 q)
  else
    let p_match := 41 / 100 in
    q ← py_div (1 - reaction_name_marg - p_match * reaction_prior)
               (1 - reaction_prior);
    Ok (p_match, py_max0 q).

End Likelihoods.

(** [reaction_genes_likelihood]: [&] and [^] on the two gene sets. *)
Definition reaction_genes_likelihood (r1 r2 : Reaction) : exc lh :=
  match r_genes r1, r_genes r2 with
  | Some g1, Some g2 =>
      let present := size (g1 ∩ g2) in
      let differ := size ((g1 ∖ g2) ∪ (g2 ∖ g1)) in
      let p_match := (99 / 100) ^ present * (1 / 100) ^ differ in
      let p_no_match := (10 / 100) ^ present * (90 / 100) ^ differ in
      Ok (p_match, p_no_match)
  | _, _ => Ok (1, 1)
  end.

Definition fake_likelihood {E : Type} (e1 e2 : E) : exc lh := Ok (1, 1).

(** ** Equation matcher *)

#[global] Instance Rlt_decision : RelDecision Rlt := Rlt_dec.
#[global] Instance Rle_decision : RelDecision Rle := Rle_dec.
#[global] Instance Rge_decision : RelDecision Rge := Rge_dec.

(** [get_cpd_set]: the names on one side of the equation, as a set. *)
Definition get_cpd_set (equation : Equation) (left : bool) : list string :=
  let coef := if left then 1 else -1 in
  remove_dups (filter (fun cv => coef * cv.2 < 0) equation).*1.

(** A row of the Series [cpd_pred.loc[pair_list]]: index label and score. *)
Definition row : Type := ((string * string) * R)%type.

(** [pair_list]: the pairs of [product(cpd_set1, cpd_set2)] that are in the
    index of [cpd_pred]. *)
Definition pair_list (cpd_set1 cpd_set2 : list string) (cpd_pred : cpd_table)
    : list (string * string) :=
  filter (fun p => is_Some (cpd_pred !! p)) (list_prod cpd_set1 cpd_set2).

(** [cpd_pred.loc[pair_list]] *)
Definition loc (cpd_pred : cpd_table) (pairs : list (string * string))
    : list row :=
  omap (fun p => pair p <$> cpd_pred !! p) pairs.

(** [sort_values(ascending=False)]: highest score first.  Rows of equal
    score keep the order they had in [pair_list], as pandas' descending sort
    leaves them; older versions, which reverse an ascending sort, put them in
    the opposite order.  Either way the order of tied rows follows the order
    in which the two sets were iterated. *)
Fixpoint insert_desc (x : row) (l : list row) : list row :=
  match l with
  | [] => [x]
  | y :: l' =>
      if bool_decide (y.2 <= x.2) then x :: y :: l' else y :: insert_desc x l'
  end.

Definition sort_values_desc (l : list row) : list row :=
  foldr insert_desc [] l.

(** [set.remove] *)
Definition set_remove (c : string) (s : list string) : list string :=
  filter (fun x => x <> c) s.

(** The state of the matcher's loops: the two accumulators and the two sets,
    which the loop mutates. *)
Record mstate : Type := mkMstate {
  p_match : R;
  p_no_match : R;
  cpd_set1 : list string;
  cpd_set2 : list string
}.

(** The body of the loop over the sorted candidate pairs.  [np.log] is [ln]:
    the two arguments are positive for a score in (-1/8, 9/8), so for every
    score that is a probability; outside that range [np.log] gives nan or
    -inf, which the numbers of this development do not have. *)
Definition commit (st : mstate) (rw : row) : mstate :=
  let '((c1, c2), score) := rw in
  if bool_decide (c1 ∈ cpd_set1 st) && bool_decide (c2 ∈ cpd_set2 st) then
    mkMstate
      (p_match st + ln (score * (9 / 10) + (1 - score) * (1 / 10)))
      (p_no_match st + ln (score * (1 / 10) + (1 - score) * (9 / 10)))
      (set_remove c1 (cpd_set1 st))
      (set_remove c2 (cpd_set2 st))
  else st.

(** The body of the two loops over the compounds left unmatched. *)
Definition unmatched (acc : lh) (c : string) : lh :=
  (acc.1 + ln (1 / 10), acc.2 + ln (9 / 10)).

(** [reaction_equation_mapping_approx_max_likelihood]: the returned pair and
    the two argument sets as the call leaves them. *)
Definition reaction_equation_mapping_approx_max_likelihood
    (set1 set2 : list string) (cpd_pred : cpd_table)
    : lh * (list string * list string) :=
  let sorted := sort_values_desc (loc cpd_pred (pair_list set1 set2 cpd_pred)) in
  let st := foldl commit (mkMstate 0 0 set1 set2) sorted in
  let acc := foldl unmatched (p_match st, p_no_match st) (cpd_set1 st) in
  let acc := foldl unmatched acc (cpd_set2 st) in
  ((exp acc.1, exp acc.2), (cpd_set1 st, cpd_set2 st)).

(** [merge_partial_p_set], called on two pairs of set objects: the result and
    the four sets as the two matcher calls leave them. *)
Definition merge_partial_p_set
    (set1_left set2_left : list string) (cpd_pred : cpd_table)
    (set1_right set2_right : list string)
    : lh * ((list string * list string) * (list string * list string)) :=
  let '(p_set_left, left') :=
    reaction_equation_mapping_approx_max_likelihood
      set1_left set2_left cpd_pred in
  let '(p_set_right, right') :=
    reaction_equation_mapping_approx_max_likelihood
      set1_right set2_right cpd_pred in
  ((p_set_left.1 * p_set_right.1, p_set_left.2 * p_set_right.2),
   (left', right')).

(** [get_best_p_value_set], on the two equations.  The four names stand for
    the four set objects: after the first call of [merge_partial_p_set] they
    stand for the sets as that call left them, and the second call is given
    these. *)
Definition get_best_p_value_set
    (equation1 equation2 : Equation) (cpd_pred : cpd_table) : lh :=
  let cpd_set1_left := get_cpd_set equation1 true in
  let cpd_set1_right := get_cpd_set equation1 false in
  let cpd_set2_left := get_cpd_set equation2 true in
  let cpd_set2_right := get_cpd_set equation2 false in
  let '(p_forward,
        ((cpd_set1_left, cpd_set2_left), (cpd_set1_right, cpd_set2_right))) :=
    merge_partial_p_set cpd_set1_left cpd_set2_left cpd_pred
                        cpd_set1_right cpd_set2_right in
  let '(p_reverse, _) :=
    merge_partial_p_set cpd_set1_left cpd_set2_right cpd_pred
                        cpd_set1_right cpd_set2_left in
  if bool_decide (p_forward.1 / p_forward.2 >= p_reverse.1 / p_reverse.2)
  then p_forward
  else p_reverse.

Definition reaction_equation_compound_mapping_likelihood
    (r1 r2 : Reaction) (cpd_pred : cpd_table) : exc lh :=
  match r_equation r1, r_equation r2 with
  | Some equation1, Some equation2 =>
      Ok (get_best_p_value_set equation1 equation2 cpd_pred)
  | _, _ => Ok (1, 1)
  end.

(** ** Pairwise evaluation and posterior aggregation *)

(** A likelihood DataFrame: index (e1, e2), columns p1 and p2, in the order
    of [product(model1, model2)]. *)
Abbreviation lh_frame := (list ((string * string) * lh)).

(** A posterior Series; [None] is a value that is not a finite number. *)
Abbreviation series := (list ((string * string) * option R)).

(** [pairwise_likelihood], with [generate_likelihood] as the body of the map,
    for a chunk size of at least one: the passes reach it only after a
    [pool.map] with the same chunk size has returned truth values.  Any
    exception of a task aborts the pass.  The pool, a handle on the worker
    processes, has no counterpart. *)
Definition pairwise_likelihood {E : Type} (e_id : E -> string)
    (model1 model2 : list E) (likelihood : E -> E -> exc lh) : exc lh_frame :=
  exc_map (fun '(e1, e2) => p ← likelihood e1 e2; Ok ((e_id e1, e_id e2), p))
          (list_prod model1 model2).

(** [scalar * DataFrame] and [DataFrame * DataFrame] on frames of one index. *)
Definition df_scale (x : R) (df : lh_frame) : lh_frame :=
  (fun '(k, (a, b)) => (k, (x * a, x * b))) <$> df.

Definition df_mul (df1 df2 : lh_frame) : lh_frame :=
  zip_with (fun '(k, (a1, b1)) '(_, (a2, b2)) => (k, (a1 * a2, b1 * b2)))
           df1 df2.

(** The accumulator of [reduce(operator.mul, likelihood_dfs, 1.0)]. *)
Inductive operand : Type :=
  | Scalar (x : R)
  | Frame (df : lh_frame).

Definition operator_mul (acc : operand) (df : lh_frame) : operand :=
  match acc with
  | Scalar x => Frame (df_scale x df)
  | Frame d => Frame (df_mul d df)
  end.

Definition likelihood_products (likelihood_dfs : list lh_frame) : operand :=
  foldl operator_mul (Scalar 1) likelihood_dfs.

(** One entry of [bayes_posterior]. *)
Definition bayes_posterior_entry (prior : R) (l : lh) : option R :=
  let p_1 := prior * l.1 in
  let p_2 := (1 - prior) * l.2 in
  np_div p_1 (p_1 + p_2).

Definition bayes_posterior (prior : R) (likelihood_df : lh_frame) : series :=
  (fun '(k, l) => (k, bayes_posterior_entry prior l)) <$> likelihood_df.

(** The joint table the passes hand to [bayes_posterior]; their lists of
    tables are never empty. *)
Definition frame_of (o : operand) : lh_frame :=
  match o with
  | Scalar _ => []
  | Frame df => df
  end.

(** [sum(...)] of a boolean test over the product of the two collections. *)
Definition count_pairs {E : Type} (test : E -> E -> bool)
    (model1 model2 : list E) : R :=
  INR (length (filter (fun '(e1, e2) => test e1 e2 = true)
                      (list_prod model1 model2))).

(** [compound_pairs // nproc] *)
Definition py_floordiv (n d : nat) : exc nat :=
  if bool_decide (d = 0%nat) then Raise ZeroDivisionError else Ok (n / d)%nat.

Definition both_defined_and {A : Type} (test : A -> A -> bool)
    (a1 a2 : option A) : bool :=
  match a1, a2 with
  | Some x1, Some x2 => test x1 x2
  | _, _ => false
  end.

Section Mapping.

Variable id_equals : string -> string -> bool.
Variable name_equals : option string -> option string -> bool.
Variable formula_equals :
  option string -> option string -> option Z -> option Z -> bool.

(** [map_model_compounds]; [model1] and [model2] are the values of
    [model1.compounds] and [model2.compounds].  The six posterior Series are
    returned in the order p, p_id, p_name, p_charge, p_formula, p_kegg.  The
    log file is not modelled. *)
Definition map_model_compounds (model1 model2 : list Compound)
    (nproc : nat) (kegg : bool) : exc (list series) :=
  let compound_pairs := (length model1 * length model2)%nat in
  compound_prior ←
    py_div (95 / 100 * INR (min (length model1) (length model2)))
           (INR compound_pairs);
  chunksize ← py_floordiv compound_pairs nproc;
  let pairs := INR compound_pairs in
  result ←
    pool_map chunksize parallel_equel
      ((fun '(c1, c2) => (uncurry id_equals, (c_id c1, c_id c2)))
         <$> list_prod model1 model2);
  total ← py_sum result;
  compound_id_marg ← py_div total pairs;
  compound_id_likelihoods ←
    pairwise_likelihood c_id model1 model2 (fun c1 c2 =>
      compound_id_likelihood id_equals c1 c2 compound_prior compound_id_marg);
  result ←
    pool_map chunksize parallel_equel
      ((fun '(c1, c2) => (uncurry name_equals, (c_name c1, c_name c2)))
         <$> list_prod model1 model2);
  total ← py_sum result;
  compound_name_marg ← py_div total pairs;
  compound_name_likelihoods ←
    pairwise_likelihood c_id model1 model2 (fun c1 c2 =>
      compound_name_likelihood name_equals c1 c2
        compound_prior compound_name_marg);
  compound_charge_equal_marg ←
    py_div (count_pairs (fun c1 c2 =>
              both_defined_and (fun z1 z2 => bool_decide (z1 = z2))
                               (c_charge c1) (c_charge c2))
              model1 model2) pairs;
  compound_charge_not_equal_marg ←
    py_div (count_pairs (fun c1 c2 =>
              both_defined_and (fun z1 z2 => bool_decide (z1 <> z2))
                               (c_charge c1) (c_charge c2))
              model1 model2) pairs;
  compound_charge_likelihoods ←
    pairwise_likelihood c_id model1 model2 (fun c1 c2 =>
      compound_charge_likelihood c1 c2 compound_prior
        compound_charge_equal_marg compound_charge_not_equal_marg);
  result ←
    pool_map chunksize parallel_equel
      ((fun '(c1, c2) =>
          (uncurry4 formula_equals,
           (c_formula c1, c_formula c2, c_charge c1, c_charge c2)))
         <$> list_prod model1 model2);
  total ← py_sum result;
  compound_formula_equal_marg ← py_div total pairs;
  undefined_formula ←
    py_div (count_pairs (fun c1 c2 =>
              negb (bool_decide (is_Some (c_formula c1)))
              || negb (bool_decide (is_Some (c_formula c2))))
              model1 model2) pairs;
  let compound_formula_not_equal_marg :=
    1 - compound_formula_equal_marg - undefined_formula in
  compound_formula_likelihoods ←
    pairwise_likelihood c_id model1 model2 (fun c1 c2 =>
      compound_formula_likelihood formula_equals c1 c2 compound_prior
        compound_formula_equal_marg compound_formula_not_equal_marg);
  compound_kegg_likelihoods ←
    (if kegg then
       compound_kegg_equal_marg ←
         py_div (count_pairs (fun c1 c2 =>
                   both_defined_and (fun k1 k2 => bool_decide (k1 = k2))
                                    (c_kegg c1) (c_kegg c2))
                   model1 model2) pairs;
       compound_kegg_not_equal_marg ←
         py_div (count_pairs (fun c1 c2 =>
                   both_defined_and (fun k1 k2 => bool_decide (k1 <> k2))
                                    (c_kegg c1) (c_kegg c2))
                   model1 model2) pairs;
       pairwise_likelihood c_id model1 model2 (fun c1 c2 =>
         compound_kegg_likelihood c1 c2 compound_prior
           compound_kegg_equal_marg compound_kegg_not_equal_marg)
     else pairwise_likelihood c_id model1 model2 fake_likelihood);
  let all_likelihoods :=
    [compound_id_likelihoods; compound_name_likelihoods;
     compound_charge_likelihoods; compound_formula_likelihoods;
     compound_kegg_likelihoods] in
  Ok [bayes_posterior compound_prior
        (frame_of (likelihood_products all_likelihoods));
      bayes_posterior compound_prior compound_id_likelihoods;
      bayes_posterior compound_prior compound_name_likelihoods;
      bayes_posterior compound_prior compound_charge_likelihoods;
      bayes_posterior compound_prior compound_formula_likelihoods;
      bayes_posterior compound_prior compound_kegg_likelihoods].

(** [map_model_reactions]: the five posterior Series in the order p, p_id,
    p_name, p_equation, p_genes. *)
Definition map_model_reactions (model1 model2 : list Reaction)
    (cpd_pred : cpd_table) (nproc : nat) (gene : bool) : exc (list series) :=
  let reaction_pairs := (length model1 * length model2)%nat in
  reaction_prior ←
    py_div (95 / 100 * INR (min (length model1) (length model2)))
           (INR reaction_pairs);
  chunksize ← py_floordiv reaction_pairs nproc;
  let pairs := INR reaction_pairs in
  result ←
    pool_map chunksize parallel_equel
      ((fun '(r1, r2) => (uncurry id_equals, (r_id r1, r_id r2)))
         <$> list_prod model1 model2);
  total ← py_sum result;
  reaction_id_equal_marg ← py_div total pairs;
  let reaction_id_not_equal_marg := 1 - reaction_id_equal_marg in
  reaction_id_likelihoods ←
    pairwise_likelihood r_id model1 model2 (fun r1 r2 =>
      reaction_id_likelihood id_equals r1 r2 reaction_prior
        reaction_id_equal_marg reaction_id_not_equal_marg);
  result ←
    pool_map chunksize parallel_equel
      ((fun '(r1, r2) => (uncurry name_equals, (r_name r1, r_name r2)))
         <$> list_prod model1 model2);
  total ← py_sum result;
  reaction_name_equal_marg ← py_div total pairs;
  reaction_name_likelihoods ←
    pairwise_likelihood r_id model1 model2 (fun r1 r2 =>
      reaction_name_likelihood name_equals r1 r2
        reaction_prior reaction_name_equal_marg);
  reaction_equation_likelihoods ←
    pairwise_likelihood r_id model1 model2 (fun r1 r2 =>
      reaction_equation_compound_mapping_likelihood r1 r2 cpd_pred);
  reaction_genes_likelihoods ←
    (if gene then
       pairwise_likelihood r_id model1 model2 reaction_genes_likelihood
     else pairwise_likelihood r_id model1 model2 fake_likelihood);
  let all_likelihoods :=
    [reaction_id_likelihoods; reaction_name_likelihoods;
     reaction_equation_likelihoods; reaction_genes_likelihoods] in
  Ok [bayes_posterior reaction_prior
        (frame_of (likelihood_products all_likelihoods));
      bayes_posterior reaction_prior reaction_id_likelihoods;
      bayes_posterior reaction_prior reaction_name_likelihoods;
      bayes_posterior reaction_prior reaction_equation_likelihoods;
      bayes_posterior reaction_prior reaction_genes_likelihoods].

End Mapping.

(** ** Mapping predictors *)

(** A row of the raw mapping table: the index label (query, candidate) and
    the columns, column 0 being the joint posterior [p]. *)
Definition raw_row : Type := ((string * string) * list (option R))%type.

Definition row_p (r : raw_row) : option R := mjoin (head r.2).

(** [get_raw_map]: one column per Series of the predictor's tuple, on the
    index of the Series. *)
Definition get_raw_map (map_p : list series) : list raw_row :=
  match map_p with
  | [] => []
  | s0 :: _ =>
      imap (fun i '(k, _) =>
              (k, (fun s : series => '(_, v) ← s !! i; v) <$> map_p)) s0
  end.

(** Comparisons of a column value with a number: a value that is not a
    number compares false. *)
Definition value_gt (v : option R) (x : R) : Prop :=
  match v with
  | Some y => x < y
  | None => False
  end.

Definition value_ge (v : option R) (x : R) : Prop :=
  match v with
  | Some y => y >= x
  | None => False
  end.

#[global] Instance value_gt_dec v x : Decision (value_gt v x).
Proof. destruct v; simpl; apply _. Defined.

#[global] Instance value_ge_dec v x : Decision (value_ge v x).
Proof. destruct v; simpl; apply _. Defined.

(** The rank of a row within its query's group, as
    [groupby(query).rank(method='min', ascending=False)] gives it: one more
    than the number of rows of the group with a greater value; a value that
    is not a number has no rank and is not counted. *)
Definition rank_min_desc (raw_map : list raw_row) (r : raw_row) : option nat :=
  x ← row_p r;
  Some (S (length (filter
    (fun r' => r'.1.1 = r.1.1 /\ value_gt (row_p r') x) raw_map))).

(** [raw_map.loc[best_index]] *)
Definition loc_rows (raw_map : list raw_row) (labels : list (string * string))
    : list raw_row :=
  l ← labels; filter (fun r => r.1 = l) raw_map.

(** [get_best_map] of both predictors, on the raw mapping table. *)
Definition get_best_map (raw_map : list raw_row) (threshold : R)
    : list raw_row :=
  let best_index :=
    (filter (fun r => rank_min_desc raw_map r = Some 1%nat) raw_map).*1 in
  let best := loc_rows raw_map best_index in
  filter (fun r => value_ge (row_p r) threshold) best.

(** The result of [series[e1, e2]] on a Series indexed by pairs: the value
    when the label occurs once, the values of its rows when it occurs more
    than once, [KeyError] when it does not occur; [IndexError] is for a
    tuple of Series without entry 0. *)
Inductive getitem : Type :=
  | Value (v : option R)
  | Values (vs : list (option R))
  | KeyError
  | IndexError.

Definition series_getitem (s : series) (label : string * string) : getitem :=
  match filter (fun kv => kv.1 = label) s with
  | [] => KeyError
  | [kv] => Value kv.2
  | rows => Values rows.*2
  end.

(** [map] of both predictors: entry 0 of the predictor's tuple, the joint
    posterior Series, at the label of the two ids. *)
Definition predictor_map (map_p : list series) (e1 e2 : string) : getitem :=
  match map_p with
  | [] => IndexError
  | p :: _ => series_getitem p (e1, e2)
  end.

(** * Vocabulary of the properties *)

(** ** Statements *)

(** The no-match probability as section 4.2 of the specification words it. *)
Definition no_match_formula (marginal p_match_constant prior : R) : R :=
  Rmax 0 ((marginal - p_match_constant * prior) / (1 - prior)).

(** The reversal of an equation: every compound changes side. *)
Definition reverse_equation (equation : Equation) : Equation :=
  (fun cv => (cv.1, - cv.2)) <$> equation.

(** The test of the matcher's loop body: both endpoints are still in their
    sets. *)
Definition both_present (st : mstate) (rw : row) : bool :=
  bool_decide (rw.1.1 ∈ cpd_set1 st) && bool_decide (rw.1.2 ∈ cpd_set2 st).

(** The pairs the loop commits on the rows it is given, in order. *)
Fixpoint committed_pairs (st : mstate) (rows : list row)
    : list (string * string) :=
  match rows with
  | [] => []
  | rw :: rows' =>
      if both_present st rw
      then rw.1 :: committed_pairs (commit st rw) rows'
      else committed_pairs st rows'
  end.

(** The pairs a call of the matcher commits. *)
Definition committed (set1 set2 : list string) (cpd_pred : cpd_table)
    : list (string * string) :=
  committed_pairs (mkMstate 0 0 set1 set2)
    (sort_values_desc (loc cpd_pred (pair_list set1 set2 cpd_pred))).

(** The compounds of each set that a call of the matcher leaves unmatched. *)
Definition unmatched1 (set1 set2 : list string) (cpd_pred : cpd_table)
    : list string :=
  filter (fun c => c ∉ (committed set1 set2 cpd_pred).*1) set1.

Definition unmatched2 (set1 set2 : list string) (cpd_pred : cpd_table)
    : list string :=
  filter (fun c => c ∉ (committed set1 set2 cpd_pred).*2) set2.

(** The order of the sorted rows: the first score is at least the second. *)
Definition score_ge (x y : row) : Prop := y.2 <= x.2.

(** No two candidate pairs of the two sets have the same score. *)
Definition distinct_scores (set1 set2 : list string) (cpd_pred : cpd_table)
    : Prop :=
  forall c1 c2 d1 d2 x,
    c1 ∈ set1 -> c2 ∈ set2 -> d1 ∈ set1 -> d2 ∈ set2 ->
    cpd_pred !! (c1, c2) = Some x -> cpd_pred !! (d1, d2) = Some x ->
    (c1, c2) = (d1, d2).

(** Two states of the loop that differ in the order of their sets only. *)
Definition same_up_to_order (st st' : mstate) : Prop :=
  p_match st = p_match st' /\ p_no_match st = p_no_match st' /\
  cpd_set1 st ≡ₚ cpd_set1 st' /\ cpd_set2 st ≡ₚ cpd_set2 st'.

(** What every channel does deliver: a result, a p_match in (0, 1] and a
    p_no_match that is not negative. *)
Definition lh_ok (r : exc lh) : Prop :=
  exists l : lh, r = Ok l /\ 0 < l.1 <= 1 /\ 0 <= l.2.

(** Every score of the compound posterior table is a probability. *)
Definition scores_in_unit (cpd_pred : cpd_table) : Prop :=
  forall p x, cpd_pred !! p = Some x -> 0 <= x <= 1.

(** What Bayes' rule needs of a likelihood pair. *)
Definition lh_valid (l : lh) : Prop := 0 < l.1 /\ 0 <= l.2.

(** A likelihood table of [n] rows, each fit for Bayes' rule. *)
Definition frame_ok (n : nat) (df : lh_frame) : Prop :=
  length df = n /\ Forall (fun rw => lh_valid rw.2) df.

(** A posterior that is a number in (0, 1]. *)
Definition posterior_ok (v : option R) : Prop :=
  exists x : R, v = Some x /\ 0 < x <= 1.

(** A posterior Series of [n] rows, each a number in (0, 1]. *)
Definition series_ok (n : nat) (s : series) : Prop :=
  length s = n /\ Forall (fun kv => posterior_ok kv.2) s.

(** The factors a committed pair of score [s] contributes to the two
    results of the matcher. *)
Definition match_factor (s : R) : R := s * (9 / 10) + (1 - s) * (1 / 10).

Definition no_match_factor (s : R) : R := s * (1 / 10) + (1 - s) * (9 / 10).

(** The score of a pair in the compound table. *)
Definition score_of (cpd_pred : cpd_table) (p : string * string) : R :=
  default 0 (cpd_pred !! p).

(** The product of a list of numbers. *)
Definition product (l : list R) : R := foldr Rmult 1 l.

(** The index of the tables of a pass: the pairs of ids, in the order of the
    product of the two collections. *)
Definition pair_index {E : Type} (e_id : E -> string) (model1 model2 : list E)
    : list (string * string) :=
  (fun '(e1, e2) => (e_id e1, e_id e2)) <$> list_prod model1 model2.

(** The product of likelihood pairs, component by component. *)
Definition lh_product (rows : list lh) : lh :=
  (product rows.*1, product rows.*2).

(** ** Concrete inputs of the examples *)

Definition cpd_atp : Compound :=
  mkCompound "atp" (Some "ATP") (Some (-4)%Z) (Some "C10H12N5O13P3") None.

Definition cpd_unnamed : Compound :=
  mkCompound "cpd1" None None None None.

Definition rxn_unnamed : Reaction :=
  mkReaction "rxn1" None None None.

Definition rxn_gene : Reaction :=
  mkReaction "rxn2" (Some "kinase") None (Some {[ "g1" ]}).

(** A raw mapping table: query a has two candidates tied at the top, the
    value of (b, y) is not a number. *)
Definition example_raw_map : list raw_row :=
  [(("a", "x"), [Some (9 / 10); Some (1 / 2)]);
   (("a", "y"), [Some (9 / 10); Some (1 / 4)]);
   (("a", "z"), [Some (1 / 2); Some (1 / 2)]);
   (("b", "x"), [Some (2 / 10); Some (1 / 2)]);
   (("b", "y"), [None; Some (1 / 2)])].

(** A posterior table in which two candidate pairs tie. *)
Definition tie_table : cpd_table :=
  list_to_map
    [(("a", "x"), 1 / 2); (("b", "x"), 1 / 2); (("b", "y"), 3 / 10)].

(** A posterior table without ties. *)
Definition distinct_table : cpd_table :=
  list_to_map
    [(("a", "x"), 9 / 10); (("b", "x"), 1 / 2); (("b", "y"), 3 / 10)].

(** Two reactions, A -> B and B -> A, and a compound posterior table that
    holds every pair of their compounds. *)
Definition eq_a_to_b : Equation := [("A", -1); ("B", 1)].

Definition eq_b_to_a : Equation := [("B", -1); ("A", 1)].

Definition cross_table : cpd_table :=
  list_to_map
    [(("A", "A"), 9 / 10); (("B", "B"), 9 / 10);
     (("A", "B"), 1 / 10); (("B", "A"), 1 / 10)].

(** * Properties *)

(** ** Arithmetic of the model *)

Lemma py_div_ok (x y : R) : y <> 0 -> py_div x y = Ok (x / y).
Proof. intros Hy. unfold py_div. destruct (Req_dec_T y 0); [lra | done]. Qed.

Lemma np_div_some (x y : R) : y <> 0 -> np_div x y = Some (x / y).
Proof. intros Hy. unfold np_div. destruct (Req_dec_T y 0); [lra | done]. Qed.

Lemma py_max0_Rmax (x : R) : py_max0 x = Rmax 0 x.
Proof.
  unfold py_max0, Rmax.
  destruct (Rlt_dec 0 x), (Rle_dec 0 x); lra.
Qed.

Lemma py_max0_nonneg (x : R) : 0 <= py_max0 x.
Proof. unfold py_max0. destruct (Rlt_dec 0 x); lra. Qed.

Lemma no_match_step (marginal c prior : R) :
  prior < 1 ->
  (q ← py_div (marginal - c * prior) (1 - prior); Ok (c, py_max0 q))
  = Ok (c, no_match_formula marginal c prior).
Proof.
  intros Hp. rewrite py_div_ok by lra. simpl.
  by rewrite py_max0_Rmax.
Qed.

(** ** Undefined attributes (C2) *)

(** C2: the compound name channel and the reaction name channel lack the
    branch for an undefined attribute that the charge, formula, kegg,
    equation and genes channels have.  On a compound (a reaction) whose name
    is [None] they return the constants of whichever outcome [name_equals]
    reports, and so never the neutral pair (1, 1), whatever [name_equals],
    the prior and the marginal are. *)
Lemma name_channels_undefined_not_neutral :
  c_name cpd_unnamed = None /\ r_name rxn_unnamed = None /\
  (forall name_equals prior marg,
     compound_name_likelihood name_equals cpd_unnamed cpd_atp prior marg
     <> Ok (1, 1)) /\
  (forall name_equals prior marg,
     reaction_name_likelihood name_equals rxn_unnamed rxn_gene prior marg
     <> Ok (1, 1)).
Proof.
  repeat split; intros name_equals prior marg H.
  - unfold compound_name_likelihood, py_div in H.
    destruct (name_equals _ _), (Req_dec_T _ _); simpl in H;
      try discriminate; injection H as H _; lra.
  - unfold reaction_name_likelihood, py_div in H.
    destruct (name_equals _ _), (Req_dec_T _ _); simpl in H;
      try discriminate; injection H as H _; lra.
Qed.

(** X23: the compound charge, formula and kegg channels and the reaction
    equation and genes channels, which test their attributes for [None],
    return exactly (1, 1) when either of the two compared attributes is
    undefined. *)
Theorem undefined_attribute_neutral
    (formula_equals :
       option string -> option string -> option Z -> option Z -> bool)
    (c1 c2 : Compound) (r1 r2 : Reaction)
    (prior marg_equal marg_not_equal : R) (cpd_pred : cpd_table) :
  (c_charge c1 = None \/ c_charge c2 = None ->
   compound_charge_likelihood c1 c2 prior marg_equal marg_not_equal
   = Ok (1, 1)) /\
  (c_formula c1 = None \/ c_formula c2 = None ->
   compound_formula_likelihood formula_equals c1 c2
     prior marg_equal marg_not_equal = Ok (1, 1)) /\
  (c_kegg c1 = None \/ c_kegg c2 = None ->
   compound_kegg_likelihood c1 c2 prior marg_equal marg_not_equal
   = Ok (1, 1)) /\
  (r_equation r1 = None \/ r_equation r2 = None ->
   reaction_equation_compound_mapping_likelihood r1 r2 cpd_pred
   = Ok (1, 1)) /\
  (r_genes r1 = None \/ r_genes r2 = None ->
   reaction_genes_likelihood r1 r2 = Ok (1, 1)).
Proof.
  unfold compound_charge_likelihood, compound_formula_likelihood,
    compound_kegg_likelihood, reaction_equation_compound_mapping_likelihood,
    reaction_genes_likelihood.
  repeat split; intros [H | H]; rewrite H; try done;
    match goal with |- match ?a with _ => _ end = _ => by destruct a end.
Qed.

Lemma undefined_attribute_neutral_witness :
  compound_charge_likelihood cpd_unnamed cpd_atp (1 / 2) (1 / 4) (1 / 4)
  = Ok (1, 1) /\
  compound_kegg_likelihood cpd_atp cpd_atp (1 / 2) (1 / 4) (1 / 4)
  = Ok (1, 1) /\
  reaction_genes_likelihood rxn_gene rxn_unnamed = Ok (1, 1).
Proof.
  pose proof (undefined_attribute_neutral (fun _ _ _ _ => true)
                cpd_unnamed cpd_atp rxn_gene rxn_unnamed
                (1 / 2) (1 / 4) (1 / 4) ∅) as (Hc & _ & _ & _ & Hg).
  pose proof (undefined_attribute_neutral (fun _ _ _ _ => true)
                cpd_atp cpd_atp rxn_gene rxn_unnamed
                (1 / 2) (1 / 4) (1 / 4) ∅) as (_ & _ & Hk & _ & _).
  split; [apply Hc; left; reflexivity |].
  split; [apply Hk; left; reflexivity | apply Hg; right; reflexivity].
Defined.

(** ** The no-match probability (C3) *)

Lemma genes_equal_singleton (g : string) (n1 n2 : option string)
    (e1 e2 : option Equation) (i1 i2 : string) :
  reaction_genes_likelihood (mkReaction i1 n1 e1 (Some {[ g ]}))
                            (mkReaction i2 n2 e2 (Some {[ g ]}))
  = Ok (99 / 100, 10 / 100).
Proof.
  unfold reaction_genes_likelihood; cbn [r_genes].
  assert (H1 : ({[g]} : gset string) ∩ {[g]} = {[g]})
    by apply (idemp_L (∩)).
  assert (H2 : (({[g]} : gset string) ∖ {[g]}) ∪ ({[g]} ∖ {[g]}) = ∅)
    by (rewrite (difference_diag_L ({[g]} : gset string));
        apply (left_id_L ∅ (∪))).
  rewrite H1, H2.
  rewrite size_singleton, size_empty. simpl.
  f_equal. f_equal; lra.
Qed.

(** C3, counterexample: the genes channel takes neither a prior nor a
    marginal.  For two reactions with the same single gene it returns
    (0.99, 0.10), and no marginal makes 0.10 the value of the formula at
    every prior in (0, 1). *)
Lemma genes_no_match_not_of_marginal_form :
  reaction_genes_likelihood rxn_gene rxn_gene = Ok (99 / 100, 10 / 100) /\
  ~ exists marginal : R, forall prior : R, 0 < prior < 1 ->
      10 / 100 = no_match_formula marginal (99 / 100) prior.
Proof.
  split; [apply genes_equal_singleton |].
  intros [m Hm].
  pose proof (Hm (1 / 2) ltac:(lra)) as H1.
  pose proof (Hm (1 / 4) ltac:(lra)) as H2.
  unfold no_match_formula, Rmax in H1, H2.
  destruct (Rle_dec _ _) in H1; [| lra].
  destruct (Rle_dec _ _) in H2; [| lra].
  lra.
Qed.

(** C3, as amended: for each of the seven channels that take a prior and a
    marginal (compound id, name, charge, formula and kegg, reaction id and
    name), every pair with both attributes defined and every prior in (0, 1),
    the returned no-match probability is
    max(0, (marginal of the observed outcome - p_match constant * prior)
           / (1 - prior)). *)
Theorem no_match_formula_marginal_channels
    (id_equals : string -> string -> bool)
    (name_equals : option string -> option string -> bool)
    (formula_equals :
       option string -> option string -> option Z -> option Z -> bool)
    (c1 c2 : Compound) (r1 r2 : Reaction)
    (prior marg marg_equal marg_not_equal : R) :
  0 < prior < 1 ->
  compound_id_likelihood id_equals c1 c2 prior marg
  = (if id_equals (c_id c1) (c_id c2)
     then Ok (65 / 100, no_match_formula marg (65 / 100) prior)
     else Ok (35 / 100, no_match_formula (1 - marg) (35 / 100) prior)) /\
  compound_name_likelihood name_equals c1 c2 prior marg
  = (if name_equals (c_name c1) (c_name c2)
     then Ok (60 / 100, no_match_formula marg (60 / 100) prior)
     else Ok (40 / 100, no_match_formula (1 - marg) (40 / 100) prior)) /\
  (is_Some (c_charge c1) -> is_Some (c_charge c2) ->
   compound_charge_likelihood c1 c2 prior marg_equal marg_not_equal
   = (if bool_decide (c_charge c1 = c_charge c2)
      then Ok (9 / 10, no_match_formula marg_equal (9 / 10) prior)
      else Ok (1 / 10, no_match_formula marg_not_equal (1 / 10) prior))) /\
  (is_Some (c_formula c1) -> is_Some (c_formula c2) ->
   compound_formula_likelihood formula_equals c1 c2
     prior marg_equal marg_not_equal
   = (if formula_equals (c_formula c1) (c_formula c2)
                        (c_charge c1) (c_charge c2)
      then Ok (9 / 10, no_match_formula marg_equal (9 / 10) prior)
      else Ok (1 / 10, no_match_formula marg_not_equal (1 / 10) prior))) /\
  (is_Some (c_kegg c1) -> is_Some (c_kegg c2) ->
   compound_kegg_likelihood c1 c2 prior marg_equal marg_not_equal
   = (if bool_decide (c_kegg c1 = c_kegg c2)
      then Ok (65 / 100, no_match_formula marg_equal (65 / 100) prior)
      else Ok (35 / 100, no_match_formula marg_not_equal (35 / 100) prior))) /\
  reaction_id_likelihood id_equals r1 r2 prior marg_equal marg_not_equal
  = (if id_equals (r_id r1) (r_id r2)
     then Ok (52 / 100, no_match_formula marg_equal (52 / 100) prior)
     else Ok (48 / 100, no_match_formula marg_not_equal (48 / 100) prior)) /\
  reaction_name_likelihood name_equals r1 r2 prior marg
  = (if name_equals (r_name r1) (r_name r2)
     then Ok (59 / 100, no_match_formula marg (59 / 100) prior)
     else Ok (41 / 100, no_match_formula (1 - marg) (41 / 100) prior)).
Proof.
  intros [_ Hp].
  unfold compound_id_likelihood, compound_name_likelihood,
    compound_charge_likelihood, compound_formula_likelihood,
    compound_kegg_likelihood, reaction_id_likelihood,
    reaction_name_likelihood.
  repeat split.
  - destruct (id_equals _ _); by apply no_match_step.
  - destruct (name_equals _ _); by apply no_match_step.
  - intros [z1 ->] [z2 ->].
    destruct (decide (z1 = z2)) as [-> | Hz].
    + rewrite !bool_decide_eq_true_2 by done. by apply no_match_step.
    + rewrite !bool_decide_eq_false_2 by congruence. by apply no_match_step.
  - intros [f1 Hf1] [f2 Hf2]. rewrite Hf1, Hf2. rewrite <- Hf1, <- Hf2.
    destruct (formula_equals _ _ _ _); by apply no_match_step.
  - intros [k1 ->] [k2 ->].
    destruct (decide (k1 = k2)) as [-> | Hk].
    + rewrite !bool_decide_eq_true_2 by done. by apply no_match_step.
    + rewrite !bool_decide_eq_false_2 by congruence. by apply no_match_step.
  - destruct (id_equals _ _); by apply no_match_step.
  - destruct (name_equals _ _); by apply no_match_step.
Qed.

Lemma no_match_formula_marginal_channels_witness :
  compound_charge_likelihood cpd_atp cpd_atp (1 / 2) (3 / 4) (1 / 4)
  = Ok (9 / 10, no_match_formula (3 / 4) (9 / 10) (1 / 2)) /\
  no_match_formula (3 / 4) (9 / 10) (1 / 2) = 6 / 10.
Proof.
  split.
  - pose proof (no_match_formula_marginal_channels
                  String.eqb (fun _ _ => false) (fun _ _ _ _ => true)
                  cpd_atp cpd_atp rxn_gene rxn_gene
                  (1 / 2) (1 / 4) (3 / 4) (1 / 4)) as H.
    destruct H as (_ & _ & Hc & _); [lra |].
    apply Hc; eexists; reflexivity.
  - unfold no_match_formula, Rmax. destruct (Rle_dec _ _); lra.
Defined.

(** ** Bayes' rule (C7, C10) *)

Lemma frac_le (a1 d1 a2 d2 : R) :
  0 < d1 -> 0 < d2 -> a1 * d2 <= a2 * d1 -> a1 / d1 <= a2 / d2.
Proof.
  intros H1 H2 H.
  replace (a1 / d1) with (a1 * d2 * / (d1 * d2)) by (field; lra).
  replace (a2 / d2) with (a2 * d1 * / (d1 * d2)) by (field; lra).
  apply Rmult_le_compat_r; [| done].
  left. apply Rinv_0_lt_compat. nra.
Qed.

Lemma frac_lt (a1 d1 a2 d2 : R) :
  0 < d1 -> 0 < d2 -> a1 * d2 < a2 * d1 -> a1 / d1 < a2 / d2.
Proof.
  intros H1 H2 H.
  replace (a1 / d1) with (a1 * d2 * / (d1 * d2)) by (field; lra).
  replace (a2 / d2) with (a2 * d1 * / (d1 * d2)) by (field; lra).
  apply Rmult_lt_compat_r; [| done].
  apply Rinv_0_lt_compat. nra.
Qed.

Lemma denominator_pos (prior a n : R) :
  0 < prior < 1 -> 0 <= a -> 0 <= n -> 0 < a + n ->
  0 < prior * a + (1 - prior) * n.
Proof.
  intros [Hp0 Hp1] Ha Hn Hpos.
  assert (0 <= prior * a) by (apply Rmult_le_pos; lra).
  assert (0 <= (1 - prior) * n) by (apply Rmult_le_pos; lra).
  destruct (Rle_lt_dec a 0).
  - assert (0 < (1 - prior) * n) by (apply Rmult_lt_0_compat; lra). lra.
  - assert (0 < prior * a) by (apply Rmult_lt_0_compat; lra). lra.
Qed.

Lemma bayes_posterior_entry_some (prior pm pn : R) :
  prior * pm + (1 - prior) * pn <> 0 ->
  bayes_posterior_entry prior (pm, pn)
  = Some (prior * pm / (prior * pm + (1 - prior) * pn)).
Proof. intros H. unfold bayes_posterior_entry; simpl. by apply np_div_some. Qed.

(** C7: for a prior in (0, 1) and likelihoods that are not negative and not
    both zero, the posterior prior*p_match / (prior*p_match +
    (1-prior)*p_no_match) of [bayes_posterior] is a number that does not
    decrease when p_match grows and does not increase when p_no_match grows;
    the change is strict as long as the other likelihood is positive. *)
Theorem bayes_posterior_monotone (prior : R) :
  0 < prior < 1 ->
  (forall a b n : R, 0 <= a <= b -> 0 <= n -> 0 < a + n ->
     exists x y,
       bayes_posterior_entry prior (a, n) = Some x /\
       bayes_posterior_entry prior (b, n) = Some y /\
       x = prior * a / (prior * a + (1 - prior) * n) /\
       x <= y /\ (a < b -> 0 < n -> x < y)) /\
  (forall m n1 n2 : R, 0 <= n1 <= n2 -> 0 <= m -> 0 < m + n1 ->
     exists x y,
       bayes_posterior_entry prior (m, n1) = Some x /\
       bayes_posterior_entry prior (m, n2) = Some y /\
       x = prior * m / (prior * m + (1 - prior) * n1) /\
       y <= x /\ (n1 < n2 -> 0 < m -> y < x)).
Proof.
  intros [Hp0 Hp1]. split.
  - intros a b n [Ha Hab] Hn Hpos.
    assert (Hda : 0 < prior * a + (1 - prior) * n)
      by (apply denominator_pos; lra).
    assert (Hdb : 0 < prior * b + (1 - prior) * n)
      by (apply denominator_pos; lra).
    eexists _, _. rewrite !bayes_posterior_entry_some by lra.
    repeat split.
    + apply frac_le; [done | done |].
      assert (Hk : 0 <= prior * (1 - prior) * n)
        by (repeat apply Rmult_le_pos; lra).
      pose proof (Rmult_le_compat_l _ _ _ Hk Hab). nra.
    + intros Hlt Hn'. apply frac_lt; [done | done |].
      assert (Hk : 0 < prior * (1 - prior) * n)
        by (repeat apply Rmult_lt_0_compat; lra).
      pose proof (Rmult_lt_compat_l _ _ _ Hk Hlt). nra.
  - intros m n1 n2 [Hn1 Hn12] Hm Hpos.
    assert (Hd1 : 0 < prior * m + (1 - prior) * n1)
      by (apply denominator_pos; lra).
    assert (Hd2 : 0 < prior * m + (1 - prior) * n2)
      by (apply denominator_pos; lra).
    eexists _, _. rewrite !bayes_posterior_entry_some by lra.
    repeat split.
    + apply frac_le; [done | done |].
      assert (Hk : 0 <= prior * (1 - prior) * m)
        by (repeat apply Rmult_le_pos; lra).
      pose proof (Rmult_le_compat_l _ _ _ Hk Hn12). nra.
    + intros Hlt Hm'. apply frac_lt; [done | done |].
      assert (Hk : 0 < prior * (1 - prior) * m)
        by (repeat apply Rmult_lt_0_compat; lra).
      pose proof (Rmult_lt_compat_l _ _ _ Hk Hlt). nra.
Qed.

Lemma bayes_posterior_monotone_witness :
  exists x y,
    bayes_posterior_entry (1 / 2) (1 / 4, 1 / 2) = Some x /\
    bayes_posterior_entry (1 / 2) (3 / 4, 1 / 2) = Some y /\
    x = 1 / 2 * (1 / 4) / (1 / 2 * (1 / 4) + (1 - 1 / 2) * (1 / 2)) /\
    x <= y /\ (1 / 4 < 3 / 4 -> 0 < 1 / 2 -> x < y).
Proof.
  apply (proj1 (bayes_posterior_monotone (1 / 2) ltac:(lra))); lra.
Defined.

Lemma exc_map_ok {A B : Type} (f : A -> exc B) (g : A -> B) (l : list A) :
  (forall a, a ∈ l -> f a = Ok (g a)) -> exc_map f l = Ok (g <$> l).
Proof.
  induction l as [| a l IH]; intros H; [done |].
  cbn [exc_map]. rewrite H by left. cbn [mbind exc_bind].
  rewrite IH; [done |]. intros a' Ha'. apply H. by right.
Qed.

(** The table of a disabled channel. *)
Lemma pairwise_fake_likelihood {E : Type} (e_id : E -> string)
    (model1 model2 : list E) :
  pairwise_likelihood e_id model1 model2 fake_likelihood
  = Ok ((fun '(e1, e2) => ((e_id e1, e_id e2), (1, 1)))
          <$> list_prod model1 model2).
Proof.
  unfold pairwise_likelihood. apply exc_map_ok. by intros [e1 e2] _.
Qed.

Lemma df_mul_ones (df fake : lh_frame) :
  Forall (fun rw => rw.2 = (1, 1)) fake ->
  length df = length fake ->
  df_mul df fake = df.
Proof.
  intros Hf. revert df.
  induction Hf as [| [k [u v]] fake Hk Hf IH]; intros [| [k' [a b]] df] Hlen;
    try done.
  simpl in *. injection Hk as -> ->.
  rewrite IH by lia. do 3 f_equal; lra.
Qed.

Lemma bayes_posterior_entry_ones (prior : R) :
  bayes_posterior_entry prior (1, 1) = Some prior.
Proof.
  unfold bayes_posterior_entry; simpl.
  rewrite np_div_some by lra. f_equal. field. lra.
Qed.

Lemma bayes_posterior_ones (prior : R) (fake : lh_frame) :
  Forall (fun rw => rw.2 = (1, 1)) fake ->
  bayes_posterior prior fake = (fun k => (k, Some prior)) <$> fake.*1.
Proof.
  unfold bayes_posterior.
  induction 1 as [| [k [u v]] l Hk _ IH]; [done |].
  simpl in Hk. injection Hk as -> ->.
  rewrite !fmap_cons, IH. cbn [fst].
  by rewrite bayes_posterior_entry_ones.
Qed.

(** C10: the table of a disabled channel holds (1, 1) for every pair;
    multiplying a likelihood table of the same index by it changes nothing,
    so it leaves the joint product as it was; and the posterior of the
    disabled channel is the prior for every pair. *)
Theorem fake_channel_neutral {E : Type} (e_id : E -> string)
    (model1 model2 : list E) (prior : R) :
  exists fake : lh_frame,
    pairwise_likelihood e_id model1 model2 fake_likelihood = Ok fake /\
    fake.*1 = (fun '(e1, e2) => (e_id e1, e_id e2))
                <$> list_prod model1 model2 /\
    Forall (fun rw => rw.2 = (1, 1)) fake /\
    (forall df : lh_frame, df.*1 = fake.*1 -> df_mul df fake = df) /\
    (forall (dfs : list lh_frame) (joint : lh_frame),
       likelihood_products dfs = Frame joint -> joint.*1 = fake.*1 ->
       likelihood_products (dfs ++ [fake]) = Frame joint) /\
    bayes_posterior prior fake = (fun k => (k, Some prior)) <$> fake.*1.
Proof.
  eexists. split; [apply pairwise_fake_likelihood |].
  set (fake := _ <$> list_prod model1 model2).
  assert (Hones : Forall (fun rw : (string * string) * lh => rw.2 = (1, 1)) fake).
  { subst fake. apply Forall_fmap, Forall_forall. by intros [e1 e2] _. }
  assert (Hmul : forall df : lh_frame, df.*1 = fake.*1 -> df_mul df fake = df).
  { intros df Hidx. apply df_mul_ones; [done |].
    by rewrite <- (length_fmap fst df), Hidx, length_fmap. }
  repeat split; try done.
  - subst fake. rewrite <- list_fmap_compose.
    apply list_fmap_ext. by intros _ [e1 e2] _.
  - intros dfs joint Hj Hidx. unfold likelihood_products in *.
    rewrite foldl_app, Hj. simpl. f_equal. by apply Hmul.
  - by apply bayes_posterior_ones.
Qed.

Lemma fake_channel_neutral_witness :
  exists fake : lh_frame,
    pairwise_likelihood c_id [cpd_atp] [cpd_atp; cpd_unnamed] fake_likelihood
    = Ok fake /\
    df_mul [(("atp", "atp"), (65 / 100, 2)); (("atp", "cpd1"), (35 / 100, 0))]
           fake
    = [(("atp", "atp"), (65 / 100, 2)); (("atp", "cpd1"), (35 / 100, 0))] /\
    bayes_posterior (1 / 4) fake
    = [(("atp", "atp"), Some (1 / 4)); (("atp", "cpd1"), Some (1 / 4))].
Proof.
  destruct (fake_channel_neutral c_id [cpd_atp] [cpd_atp; cpd_unnamed] (1 / 4))
    as (fake & Hf & Hidx & _ & Hmul & _ & Hpost).
  exists fake. split; [exact Hf |]. split.
  - apply Hmul. rewrite Hidx. reflexivity.
  - rewrite Hpost, Hidx. reflexivity.
Defined.

(** ** Best matches (C8) *)

Lemma filter_absent_label (t : list raw_row) (l : string * string) :
  l ∉ t.*1 -> filter (fun r' : raw_row => r'.1 = l) t = [].
Proof.
  induction t as [| b t IH]; intros Hl; [done |].
  rewrite fmap_cons in Hl. apply not_elem_of_cons in Hl as [Hb Hl].
  rewrite filter_cons_False by congruence. by apply IH.
Qed.

Lemma filter_unique_label (raw_map : list raw_row) (r : raw_row) :
  NoDup raw_map.*1 -> r ∈ raw_map ->
  filter (fun r' : raw_row => r'.1 = r.1) raw_map = [r].
Proof.
  induction raw_map as [| a t IH]; intros Hnd Hr; [by inversion Hr |].
  rewrite fmap_cons in Hnd. apply NoDup_cons in Hnd as [Ha Hnd].
  apply elem_of_cons in Hr as [-> | Hr].
  - rewrite filter_cons_True by done. f_equal. by apply filter_absent_label.
  - rewrite filter_cons_False; [by apply IH |].
    intros Heq. apply Ha. rewrite Heq. by apply list_elem_of_fmap_2.
Qed.

Lemma loc_rows_sub (raw_map sub : list raw_row) :
  NoDup raw_map.*1 -> sub ⊆ raw_map -> loc_rows raw_map sub.*1 = sub.
Proof.
  intros Hnd. unfold loc_rows.
  induction sub as [| r sub IH]; intros Hsub; [done |].
  rewrite fmap_cons, bind_cons.
  rewrite filter_unique_label; [| done | apply Hsub; by left].
  simpl. f_equal. apply IH. intros x Hx. apply Hsub. by right.
Qed.

(** With an index free of duplicates, [get_best_map] is a filter of the raw
    mapping table: it keeps the table's rows, in the table's order. *)
Lemma get_best_map_filter (raw_map : list raw_row) (threshold : R) :
  NoDup raw_map.*1 ->
  get_best_map raw_map threshold
  = filter (fun r => value_ge (row_p r) threshold)
      (filter (fun r => rank_min_desc raw_map r = Some 1%nat) raw_map).
Proof.
  intros Hnd. unfold get_best_map.
  rewrite loc_rows_sub; [done | done |].
  intros r Hr. by apply list_elem_of_filter in Hr as [_ ?].
Qed.

Lemma filter_none {A : Type} (P : A -> Prop) `{!forall x, Decision (P x)}
    (l : list A) :
  Forall (fun x => ~ P x) l -> filter P l = [].
Proof. induction 1; [done | by rewrite filter_cons_False]. Qed.

(** Rank 1 is the maximum of the query's group. *)
Lemma rank_one_iff_max (raw_map : list raw_row) (r : raw_row) :
  rank_min_desc raw_map r = Some 1%nat <->
  exists x, row_p r = Some x /\
    forall r' y, r' ∈ raw_map -> r'.1.1 = r.1.1 -> row_p r' = Some y -> y <= x.
Proof.
  unfold rank_min_desc. split.
  - destruct (row_p r) as [x |] eqn:Hx; [| done]. cbn [mbind option_bind].
    intros H. injection H as H. apply length_zero_iff_nil in H.
    exists x. split; [done |]. intros r' y Hr' Hq Hy.
    destruct (Rle_lt_dec y x) as [| Hlt]; [done |]. exfalso.
    eapply filter_nil_not_elem_of; [exact H | | exact Hr'].
    cbn beta. rewrite Hy. by split.
  - intros (x & Hx & Hmax). rewrite Hx. cbn [mbind option_bind].
    do 2 f_equal. apply length_zero_iff_nil, filter_none.
    apply Forall_forall. intros r' Hr' [Hq Hgt].
    destruct (row_p r') as [y |] eqn:Hy; [| done]. simpl in Hgt.
    specialize (Hmax r' y Hr' Hq Hy). lra.
Qed.

(** C8: on a raw mapping table whose index has no duplicate label,
    [get_best_map] keeps (in the table's order) exactly the rows whose joint
    posterior is at least the threshold and is the maximum joint posterior
    of the row's query entity over all its candidates; every row tied at
    that maximum is kept. *)
Theorem get_best_map_spec (raw_map : list raw_row) (threshold : R) :
  NoDup raw_map.*1 ->
  sublist (get_best_map raw_map threshold) raw_map /\
  forall r : raw_row,
    r ∈ get_best_map raw_map threshold <->
    r ∈ raw_map /\
    exists x, row_p r = Some x /\ x >= threshold /\
      forall r' y,
        r' ∈ raw_map -> r'.1.1 = r.1.1 -> row_p r' = Some y -> y <= x.
Proof.
  intros Hnd. rewrite get_best_map_filter by done. split.
  - etrans; apply sublist_filter.
  - intros r. rewrite !list_elem_of_filter, rank_one_iff_max. split.
    + intros (Hge & (x & Hx & Hmax) & Hr). split; [done |].
      exists x. rewrite Hx in Hge. by repeat split.
    + intros (Hr & x & Hx & Hge & Hmax). rewrite Hx.
      split; [done |]. split; [| done]. by exists x.
Qed.

Lemma get_best_map_spec_witness :
  (("a", "x"), [Some (9 / 10); Some (1 / 2)])
    ∈ get_best_map example_raw_map (1 / 2) /\
  (("a", "y"), [Some (9 / 10); Some (1 / 4)])
    ∈ get_best_map example_raw_map (1 / 2) /\
  (("b", "x"), [Some (2 / 10); Some (1 / 2)])
    ∉ get_best_map example_raw_map (1 / 2).
Proof.
  assert (Hnd : NoDup example_raw_map.*1)
    by (apply (bool_decide_unpack _); vm_compute; exact I).
  destruct (get_best_map_spec example_raw_map (1 / 2) Hnd) as [_ Hspec].
  assert (Hmax : forall (r' : raw_row) (y : R),
            r' ∈ example_raw_map -> row_p r' = Some y -> y <= 9 / 10).
  { intros r' y Hr' Hy. unfold example_raw_map in Hr'.
    repeat (apply elem_of_cons in Hr' as [-> | Hr']);
      try (by inversion Hr'); unfold row_p in Hy; simpl in Hy;
      try discriminate; injection Hy as <-; lra. }
  split; [| split].
  - apply Hspec. split; [by left |].
    exists (9 / 10). split; [done |]. split; [lra |].
    intros r' y Hr' _ Hy. by apply (Hmax r').
  - apply Hspec. split; [right; by left |].
    exists (9 / 10). split; [done |]. split; [lra |].
    intros r' y Hr' _ Hy. by apply (Hmax r').
  - intros Hin. apply Hspec in Hin as (_ & x & Hx & Hge & _).
    unfold row_p in Hx; simpl in Hx. injection Hx as <-. lra.
Defined.

(** ** Direction invariance of the equation matcher (C1) *)

Lemma side_reverse (equation : Equation) (coef : R) :
  (filter (fun cv : string * R => coef * cv.2 < 0)
          (reverse_equation equation)).*1
  = (filter (fun cv : string * R => - coef * cv.2 < 0) equation).*1.
Proof.
  unfold reverse_equation.
  induction equation as [| [c v] e IH]; [done |].
  rewrite fmap_cons. cbn [fst snd].
  destruct (decide (coef * - v < 0)) as [H1 | H1],
           (decide (- coef * v < 0)) as [H2 | H2]; try (exfalso; lra).
  - rewrite !filter_cons_True by done. by rewrite !fmap_cons, IH.
  - by rewrite !filter_cons_False by done.
Qed.

Lemma get_cpd_set_reverse (equation : Equation) (left : bool) :
  get_cpd_set (reverse_equation equation) left
  = get_cpd_set equation (negb left).
Proof.
  unfold get_cpd_set. rewrite side_reverse.
  destruct left; cbn [negb]; [done |].
  by replace (- -1) with 1 by lra.
Qed.

(** C1: replacing both equations by their reversals leaves the result of
    [get_best_p_value_set] unchanged. *)
Theorem get_best_p_value_set_reverse
    (equation1 equation2 : Equation) (cpd_pred : cpd_table) :
  get_best_p_value_set (reverse_equation equation1)
                       (reverse_equation equation2) cpd_pred
  = get_best_p_value_set equation1 equation2 cpd_pred.
Proof.
  unfold get_best_p_value_set. rewrite !get_cpd_set_reverse.
  cbn [negb]; cbv zeta.
  unfold merge_partial_p_set.
  destruct (reaction_equation_mapping_approx_max_likelihood
              (get_cpd_set equation1 true) (get_cpd_set equation2 true)
              cpd_pred) as [[a1 a2] [l1 l2]].
  destruct (reaction_equation_mapping_approx_max_likelihood
              (get_cpd_set equation1 false) (get_cpd_set equation2 false)
              cpd_pred) as [[b1 b2] [r1 r2]].
  cbn [negb]; cbv zeta.
  destruct (reaction_equation_mapping_approx_max_likelihood l1 r2 cpd_pred)
    as [[c1 c2] ?].
  destruct (reaction_equation_mapping_approx_max_likelihood r1 l2 cpd_pred)
    as [[d1 d2] ?].
  cbn [fst snd].
  rewrite (Rmult_comm b1 a1), (Rmult_comm b2 a2),
    (Rmult_comm d1 c1), (Rmult_comm d2 c2).
  done.
Qed.

(** ** The matcher's effect on its argument sets (C9) *)

Lemma commit_unfold (st : mstate) (rw : row) :
  commit st rw
  = if both_present st rw then
      mkMstate
        (p_match st + ln (rw.2 * (9 / 10) + (1 - rw.2) * (1 / 10)))
        (p_no_match st + ln (rw.2 * (1 / 10) + (1 - rw.2) * (9 / 10)))
        (set_remove rw.1.1 (cpd_set1 st))
        (set_remove rw.1.2 (cpd_set2 st))
    else st.
Proof. by destruct rw as [[c1 c2] score]. Qed.

Lemma filter_remove_not_in (c : string) (cs s : list string) :
  filter (fun x => x ∉ cs) (set_remove c s) = filter (fun x => x ∉ c :: cs) s.
Proof.
  unfold set_remove. rewrite list_filter_filter.
  apply list_filter_iff. intros x. rewrite not_elem_of_cons. tauto.
Qed.

Lemma filter_not_in_nil (s : list string) :
  filter (fun x => x ∉ @nil string) s = s.
Proof.
  induction s as [| x s IH]; [done |].
  rewrite filter_cons_True by apply not_elem_of_nil. by rewrite IH.
Qed.

Lemma sets_after_commits (st : mstate) (rows : list row) :
  cpd_set1 (foldl commit st rows)
  = filter (fun c => c ∉ (committed_pairs st rows).*1) (cpd_set1 st) /\
  cpd_set2 (foldl commit st rows)
  = filter (fun c => c ∉ (committed_pairs st rows).*2) (cpd_set2 st).
Proof.
  revert st. induction rows as [| rw rows IH]; intros st.
  - simpl. by rewrite !filter_not_in_nil.
  - cbn [foldl committed_pairs]. rewrite commit_unfold.
    destruct (both_present st rw) eqn:Hb; [| apply IH].
    destruct (IH (mkMstate
        (p_match st + ln (rw.2 * (9 / 10) + (1 - rw.2) * (1 / 10)))
        (p_no_match st + ln (rw.2 * (1 / 10) + (1 - rw.2) * (9 / 10)))
        (set_remove rw.1.1 (cpd_set1 st))
        (set_remove rw.1.2 (cpd_set2 st)))) as [IH1 IH2].
    rewrite IH1, IH2, !fmap_cons. cbn [cpd_set1 cpd_set2].
    by rewrite !filter_remove_not_in.
Qed.

(** *** The sorted candidate rows *)

Lemma insert_desc_perm (x : row) (l : list row) : insert_desc x l ≡ₚ x :: l.
Proof.
  induction l as [| y l IH]; [done |].
  cbn [insert_desc]. destruct (bool_decide _); [done |].
  rewrite IH. apply Permutation_swap.
Qed.

Lemma sort_values_desc_perm (l : list row) : sort_values_desc l ≡ₚ l.
Proof.
  induction l as [| x l IH]; [done |].
  cbn [sort_values_desc foldr]. rewrite insert_desc_perm.
  by apply Permutation_skip.
Qed.

Lemma insert_desc_sorted (x : row) (l : list row) :
  StronglySorted score_ge l -> StronglySorted score_ge (insert_desc x l).
Proof.
  induction 1 as [| y l Hl IH Hy]; [repeat constructor |].
  cbn [insert_desc]. destruct (bool_decide_reflect (y.2 <= x.2)) as [Hle | Hnle].
  - constructor; [by constructor |]. constructor; [done |].
    eapply Forall_impl; [exact Hy |]. unfold score_ge. intros z Hz. lra.
  - constructor; [done |].
    rewrite insert_desc_perm. constructor; [unfold score_ge; lra | done].
Qed.

Lemma sort_values_desc_sorted (l : list row) :
  StronglySorted score_ge (sort_values_desc l).
Proof.
  induction l as [| x l IH]; [constructor |].
  by apply insert_desc_sorted.
Qed.

Lemma candidate_row (set1 set2 : list string) (cpd_pred : cpd_table)
    (c1 c2 : string) (x : R) :
  ((c1, c2), x) ∈ sort_values_desc (loc cpd_pred (pair_list set1 set2 cpd_pred))
  <-> c1 ∈ set1 /\ c2 ∈ set2 /\ cpd_pred !! (c1, c2) = Some x.
Proof.
  rewrite sort_values_desc_perm. unfold loc, pair_list.
  rewrite list_elem_of_omap. split.
  - intros ([a b] & Hp & Hx). apply list_elem_of_filter in Hp as [_ Hp].
    destruct (cpd_pred !! (a, b)) as [y |] eqn:Hy; [| done].
    simpl in Hx. injection Hx as -> -> ->.
    apply list_elem_of_In, in_prod_iff in Hp as [H1 H2].
    by rewrite <- !list_elem_of_In in *.
  - intros (H1 & H2 & Hx). exists (c1, c2). rewrite Hx. split; [| done].
    apply list_elem_of_filter. split; [by rewrite Hx |].
    apply list_elem_of_In, in_prod_iff. by rewrite <- !list_elem_of_In.
Qed.

(** A row the loop has gone through does not keep both its endpoints. *)
Lemma visited_row_committed (st : mstate) (rows : list row) (rw : row) :
  rw ∈ rows -> rw.1.1 ∈ cpd_set1 st -> rw.1.2 ∈ cpd_set2 st ->
  rw.1.1 ∈ (committed_pairs st rows).*1 \/
  rw.1.2 ∈ (committed_pairs st rows).*2.
Proof.
  revert st. induction rows as [| r rows IH]; intros st Hin H1 H2;
    [by inversion Hin |].
  cbn [committed_pairs].
  apply elem_of_cons in Hin as [Heq | Hin].
  - subst r. assert (Hb : both_present st rw = true)
      by (unfold both_present; by rewrite !bool_decide_eq_true_2).
    rewrite Hb, fmap_cons. left. by left.
  - destruct (both_present st r) eqn:Hb; [| by apply IH].
    rewrite !fmap_cons.
    destruct (decide (rw.1.1 = r.1.1)) as [-> | Hne1]; [left; by left |].
    destruct (decide (rw.1.2 = r.1.2)) as [-> | Hne2]; [right; by left |].
    destruct (IH (commit st r) Hin) as [H | H].
    + rewrite commit_unfold, Hb. cbn [cpd_set1].
      by apply list_elem_of_filter.
    + rewrite commit_unfold, Hb. cbn [cpd_set2].
      by apply list_elem_of_filter.
    + left. by right.
    + right. by right.
Qed.

Lemma committed_pairs_rows (st : mstate) (rows : list row) :
  committed_pairs st rows ⊆ rows.*1.
Proof.
  revert st. induction rows as [| r rows IH]; intros st; [done |].
  cbn [committed_pairs]. rewrite fmap_cons.
  destruct (both_present st r).
  - intros p [-> | Hp]%elem_of_cons; [by left |]. right. by eapply IH.
  - intros p Hp. right. by eapply IH.
Qed.

Lemma matcher_sets (set1 set2 : list string) (cpd_pred : cpd_table) :
  (reaction_equation_mapping_approx_max_likelihood set1 set2 cpd_pred).2
  = (unmatched1 set1 set2 cpd_pred, unmatched2 set1 set2 cpd_pred).
Proof.
  unfold reaction_equation_mapping_approx_max_likelihood,
    unmatched1, unmatched2, committed. cbn [snd].
  by destruct (sets_after_commits (mkMstate 0 0 set1 set2)
    (sort_values_desc (loc cpd_pred (pair_list set1 set2 cpd_pred))))
    as [-> ->].
Qed.

(** C9: the matcher leaves in each argument set exactly the compounds it
    did not commit to a match: every committed pair is a candidate pair of
    the two sets, no candidate pair is left between the two sets, and
    [get_best_p_value_set] scores the reverse hypothesis on the sets as the
    forward hypothesis left them. *)
Theorem matcher_depletes_argument_sets
    (set1 set2 : list string) (equation1 equation2 : Equation)
    (cpd_pred : cpd_table) :
  (reaction_equation_mapping_approx_max_likelihood set1 set2 cpd_pred).2
  = (unmatched1 set1 set2 cpd_pred, unmatched2 set1 set2 cpd_pred) /\
  (forall p, p ∈ committed set1 set2 cpd_pred ->
     p.1 ∈ set1 /\ p.2 ∈ set2 /\ is_Some (cpd_pred !! p)) /\
  (forall c1 c2,
     c1 ∈ unmatched1 set1 set2 cpd_pred ->
     c2 ∈ unmatched2 set1 set2 cpd_pred ->
     cpd_pred !! (c1, c2) = None) /\
  get_best_p_value_set equation1 equation2 cpd_pred
  = (let left1 := get_cpd_set equation1 true in
     let right1 := get_cpd_set equation1 false in
     let left2 := get_cpd_set equation2 true in
     let right2 := get_cpd_set equation2 false in
     let p_forward :=
       (merge_partial_p_set left1 left2 cpd_pred right1 right2).1 in
     let p_reverse :=
       (merge_partial_p_set
          (unmatched1 left1 left2 cpd_pred) (unmatched2 right1 right2 cpd_pred)
          cpd_pred
          (unmatched1 right1 right2 cpd_pred) (unmatched2 left1 left2 cpd_pred)
       ).1 in
     if bool_decide (p_forward.1 / p_forward.2 >= p_reverse.1 / p_reverse.2)
     then p_forward else p_reverse).
Proof.
  split; [apply matcher_sets |]. split; [| split].
  - intros [c1 c2] Hp. apply committed_pairs_rows in Hp.
    apply list_elem_of_fmap in Hp as ([p x] & Heq & Hrow).
    simpl in Heq. subst p. apply candidate_row in Hrow as (H1 & H2 & Hx).
    by rewrite Hx.
  - intros c1 c2 [Hn1 H1]%list_elem_of_filter [Hn2 H2]%list_elem_of_filter.
    destruct (cpd_pred !! (c1, c2)) as [x |] eqn:Hx; [| done]. exfalso.
    assert (Hrow : ((c1, c2), x) ∈ sort_values_desc
              (loc cpd_pred (pair_list set1 set2 cpd_pred)))
      by by apply candidate_row.
    destruct (visited_row_committed (mkMstate 0 0 set1 set2) _ _ Hrow H1 H2);
      [by apply Hn1 | by apply Hn2].
  - unfold get_best_p_value_set, merge_partial_p_set.
    cbv zeta.
    pose proof (matcher_sets (get_cpd_set equation1 true)
                  (get_cpd_set equation2 true) cpd_pred) as HL.
    pose proof (matcher_sets (get_cpd_set equation1 false)
                  (get_cpd_set equation2 false) cpd_pred) as HR.
    destruct (reaction_equation_mapping_approx_max_likelihood
                (get_cpd_set equation1 true) (get_cpd_set equation2 true)
                cpd_pred) as [pl [l1 l2]].
    destruct (reaction_equation_mapping_approx_max_likelihood
                (get_cpd_set equation1 false) (get_cpd_set equation2 false)
                cpd_pred) as [pr [r1 r2]].
    cbn [snd] in HL, HR. injection HL as -> ->. injection HR as -> ->.
    cbv zeta.
    destruct (reaction_equation_mapping_approx_max_likelihood
                (unmatched1 _ _ _) (unmatched2 _ _ _) cpd_pred) as [pa ?].
    destruct (reaction_equation_mapping_approx_max_likelihood
                (unmatched1 _ _ _) (unmatched2 _ _ _) cpd_pred) as [pb ?].
    done.
Qed.

(** ** Order of iteration of the matcher's sets (C6) *)

Lemma exp_add_ln (x a : R) : 0 < a -> exp (x + ln a) = exp x * a.
Proof. intros Ha. by rewrite exp_plus, exp_ln. Qed.

(** Evaluation of the sort on rows of concrete scores. *)
Ltac eval_sort :=
  unfold sort_values_desc; cbn [foldr insert_desc snd];
  repeat (first [ rewrite bool_decide_eq_true_2 by (cbn [snd]; lra)
                | rewrite bool_decide_eq_false_2 by (cbn [snd]; lra) ];
          cbn [insert_desc snd]).

(** Evaluation of [exp] of a sum of logarithms of positive numbers. *)
Ltac eval_exp :=
  repeat rewrite exp_add_ln by lra; rewrite ?exp_0.

(** C6, counterexample: with the candidate pairs (a, x) and (b, x) tied at
    0.5, the order in which the first set is iterated decides which of the
    two is committed: after (a, x) the pair (b, y) is still free and is
    committed too, after (b, x) both a and y stay unmatched. *)
Lemma matcher_depends_on_order_of_ties :
  ["a"; "b"] ≡ₚ ["b"; "a"] /\
  (reaction_equation_mapping_approx_max_likelihood
     ["a"; "b"] ["x"; "y"] tie_table).1 = (17 / 100, 33 / 100) /\
  (reaction_equation_mapping_approx_max_likelihood
     ["b"; "a"] ["x"; "y"] tie_table).1 = (5 / 1000, 405 / 1000).
Proof.
  split; [apply Permutation_swap |]. split.
  - unfold reaction_equation_mapping_approx_max_likelihood.
    change (loc tie_table (pair_list ["a"; "b"] ["x"; "y"] tie_table))
      with [(("a", "x"), 1 / 2); (("b", "x"), 1 / 2); (("b", "y"), 3 / 10)].
    eval_sort. simpl. eval_exp. f_equal; lra.
  - unfold reaction_equation_mapping_approx_max_likelihood.
    change (loc tie_table (pair_list ["b"; "a"] ["x"; "y"] tie_table))
      with [(("b", "x"), 1 / 2); (("b", "y"), 3 / 10); (("a", "x"), 1 / 2)].
    eval_sort. simpl. eval_exp. f_equal; lra.
Qed.

Lemma list_prod_perm_r {A B : Type} (l : list A) (k k' : list B) :
  k ≡ₚ k' -> list_prod l k ≡ₚ list_prod l k'.
Proof.
  intros Hk. induction l as [| a l IH]; [done |].
  cbn [list_prod]. apply Permutation_app; [| done].
  by apply Permutation_map.
Qed.

Lemma list_prod_perm_l {A B : Type} (l l' : list A) (k : list B) :
  l ≡ₚ l' -> list_prod l k ≡ₚ list_prod l' k.
Proof.
  induction 1 as [| a l l' _ IH | a b l | l1 l2 l3 _ IH1 _ IH2].
  - done.
  - cbn [list_prod]. by apply Permutation_app.
  - cbn [list_prod]. rewrite !app_assoc.
    apply Permutation_app; [apply Permutation_app_comm | done].
  - by etrans.
Qed.

Lemma rows_perm (set1 set1' set2 set2' : list string) (cpd_pred : cpd_table) :
  set1 ≡ₚ set1' -> set2 ≡ₚ set2' ->
  sort_values_desc (loc cpd_pred (pair_list set1 set2 cpd_pred))
  ≡ₚ sort_values_desc (loc cpd_pred (pair_list set1' set2' cpd_pred)).
Proof.
  intros H1 H2. rewrite !sort_values_desc_perm. unfold loc, pair_list.
  apply omap_Permutation, filter_Permutation.
  etrans; [by apply list_prod_perm_l | by apply list_prod_perm_r].
Qed.

Lemma rows_eq (set1 set1' set2 set2' : list string) (cpd_pred : cpd_table) :
  set1 ≡ₚ set1' -> set2 ≡ₚ set2' -> distinct_scores set1 set2 cpd_pred ->
  sort_values_desc (loc cpd_pred (pair_list set1 set2 cpd_pred))
  = sort_values_desc (loc cpd_pred (pair_list set1' set2' cpd_pred)).
Proof.
  intros H1 H2 Hd.
  apply (StronglySorted_unique_strong score_ge);
    [| apply sort_values_desc_sorted | apply sort_values_desc_sorted
     | by apply rows_perm].
  intros [[c1 c2] x] [[d1 d2] y] Hx Hy Hxy Hyx.
  unfold score_ge in Hxy, Hyx. cbn [snd] in Hxy, Hyx.
  assert (x = y) as <- by lra.
  apply candidate_row in Hx as (Hc1 & Hc2 & Hx).
  apply candidate_row in Hy as (Hd1 & Hd2 & Hy).
  rewrite <- H1 in Hd1. rewrite <- H2 in Hd2.
  by rewrite (Hd c1 c2 d1 d2 x).
Qed.

Lemma commit_same_up_to_order (st st' : mstate) (rw : row) :
  same_up_to_order st st' ->
  same_up_to_order (commit st rw) (commit st' rw).
Proof.
  intros (Hm & Hn & H1 & H2). rewrite !commit_unfold.
  assert (Hb : both_present st rw = both_present st' rw).
  { unfold both_present. f_equal; apply bool_decide_ext.
    - by rewrite H1.
    - by rewrite H2. }
  rewrite <- Hb. destruct (both_present st rw); [| done].
  unfold same_up_to_order, set_remove. cbn [p_match p_no_match cpd_set1 cpd_set2].
  rewrite Hm, Hn. repeat split; by apply filter_Permutation.
Qed.

Lemma foldl_commit_same_up_to_order (rows : list row) (st st' : mstate) :
  same_up_to_order st st' ->
  same_up_to_order (foldl commit st rows) (foldl commit st' rows).
Proof.
  revert st st'. induction rows as [| rw rows IH]; intros st st' H; [done |].
  cbn [foldl]. by apply IH, commit_same_up_to_order.
Qed.

Lemma foldl_unmatched_length (s s' : list string) (acc : lh) :
  length s = length s' -> foldl unmatched acc s = foldl unmatched acc s'.
Proof.
  revert s' acc. induction s as [| c s IH]; intros [| c' s'] acc Hlen;
    try done.
  cbn [foldl]. apply IH. simpl in Hlen. lia.
Qed.

(** C6, as amended: when no two candidate pairs have the same score,
    permuting the iteration order of either input set does not change the
    (p_match, p_no_match) the matcher returns. *)
Theorem matcher_order_independent
    (set1 set1' set2 set2' : list string) (cpd_pred : cpd_table) :
  set1 ≡ₚ set1' -> set2 ≡ₚ set2' -> distinct_scores set1 set2 cpd_pred ->
  (reaction_equation_mapping_approx_max_likelihood set1 set2 cpd_pred).1
  = (reaction_equation_mapping_approx_max_likelihood set1' set2' cpd_pred).1.
Proof.
  intros H1 H2 Hd. unfold reaction_equation_mapping_approx_max_likelihood.
  cbn [fst]. rewrite <- (rows_eq set1 set1' set2 set2') by done.
  destruct (foldl_commit_same_up_to_order
              (sort_values_desc (loc cpd_pred (pair_list set1 set2 cpd_pred)))
              (mkMstate 0 0 set1 set2) (mkMstate 0 0 set1' set2'))
    as (Hm & Hn & Hs1 & Hs2); [by repeat split |].
  rewrite <- Hm, <- Hn.
  rewrite (foldl_unmatched_length _ _ _ (Permutation_length Hs1)).
  by rewrite (foldl_unmatched_length _ _ _ (Permutation_length Hs2)).
Qed.

Lemma distinct_table_lookup :
  distinct_table !! ("a", "x") = Some (9 / 10) /\
  distinct_table !! ("a", "y") = None /\
  distinct_table !! ("b", "x") = Some (1 / 2) /\
  distinct_table !! ("b", "y") = Some (3 / 10).
Proof. by repeat split. Qed.

Lemma distinct_table_scores :
  distinct_scores ["a"; "b"] ["x"; "y"] distinct_table.
Proof.
  destruct distinct_table_lookup as (L1 & L2 & L3 & L4).
  intros c1 c2 d1 d2 x Hc1 Hc2 Hd1 Hd2 Hx Hy.
  repeat match goal with
         | H : _ ∈ _ :: _ |- _ => apply elem_of_cons in H as [-> | H]
         | H : _ ∈ [] |- _ => by inversion H
         end;
    rewrite ?L1, ?L2, ?L3, ?L4 in Hx; rewrite ?L1, ?L2, ?L3, ?L4 in Hy;
    try done;
    injection Hx as <-; injection Hy as Hy; exfalso; lra.
Qed.

Lemma matcher_order_independent_witness :
  (reaction_equation_mapping_approx_max_likelihood
     ["a"; "b"] ["x"; "y"] distinct_table).1
  = (reaction_equation_mapping_approx_max_likelihood
       ["b"; "a"] ["y"; "x"] distinct_table).1.
Proof.
  apply matcher_order_independent;
    [apply Permutation_swap | apply Permutation_swap
    | apply distinct_table_scores].
Defined.

(** *** The reverse hypothesis after the forward one: an example *)

Lemma example_sides :
  get_cpd_set eq_a_to_b true = ["A"] /\ get_cpd_set eq_a_to_b false = ["B"] /\
  get_cpd_set eq_b_to_a true = ["B"] /\ get_cpd_set eq_b_to_a false = ["A"].
Proof.
  unfold get_cpd_set, eq_a_to_b, eq_b_to_a.
  repeat split;
    repeat (first [ rewrite filter_cons_True by (cbn [snd]; lra)
                  | rewrite filter_cons_False by (cbn [snd]; lra) ]);
    reflexivity.
Qed.

Lemma example_forward_left :
  reaction_equation_mapping_approx_max_likelihood ["A"] ["B"] cross_table
  = ((18 / 100, 82 / 100), ([], [])).
Proof.
  unfold reaction_equation_mapping_approx_max_likelihood.
  change (loc cross_table (pair_list ["A"] ["B"] cross_table))
    with [(("A", "B"), 1 / 10)].
  eval_sort. simpl. eval_exp. do 2 f_equal; lra.
Qed.

Lemma example_forward_right :
  reaction_equation_mapping_approx_max_likelihood ["B"] ["A"] cross_table
  = ((18 / 100, 82 / 100), ([], [])).
Proof.
  unfold reaction_equation_mapping_approx_max_likelihood.
  change (loc cross_table (pair_list ["B"] ["A"] cross_table))
    with [(("B", "A"), 1 / 10)].
  eval_sort. simpl. eval_exp. do 2 f_equal; lra.
Qed.

Lemma example_empty_sets (cpd_pred : cpd_table) :
  reaction_equation_mapping_approx_max_likelihood [] [] cpd_pred
  = ((1, 1), ([], [])).
Proof.
  unfold reaction_equation_mapping_approx_max_likelihood. simpl.
  by rewrite exp_0.
Qed.

Lemma example_same_side :
  reaction_equation_mapping_approx_max_likelihood ["A"] ["A"] cross_table
  = ((82 / 100, 18 / 100), ([], [])) /\
  reaction_equation_mapping_approx_max_likelihood ["B"] ["B"] cross_table
  = ((82 / 100, 18 / 100), ([], [])).
Proof.
  split.
  - unfold reaction_equation_mapping_approx_max_likelihood.
    change (loc cross_table (pair_list ["A"] ["A"] cross_table))
      with [(("A", "A"), 9 / 10)].
    eval_sort. simpl. eval_exp. do 2 f_equal; lra.
  - unfold reaction_equation_mapping_approx_max_likelihood.
    change (loc cross_table (pair_list ["B"] ["B"] cross_table))
      with [(("B", "B"), 9 / 10)].
    eval_sort. simpl. eval_exp. do 2 f_equal; lra.
Qed.

(** For A -> B against B -> A the forward hypothesis commits the only
    candidate pair of each side, (A, B) and (B, A), and empties all four
    sets; the reverse hypothesis is then scored on empty sets and gives
    (1, 1), which is what [get_best_p_value_set] returns.  On the sets of
    the two equations the reverse hypothesis scores (0.6724, 0.0324). *)
Lemma reverse_hypothesis_on_depleted_sets :
  get_best_p_value_set eq_a_to_b eq_b_to_a cross_table = (1, 1) /\
  (merge_partial_p_set (get_cpd_set eq_a_to_b true)
     (get_cpd_set eq_b_to_a false) cross_table
     (get_cpd_set eq_a_to_b false) (get_cpd_set eq_b_to_a true)).1
  = (6724 / 10000, 324 / 10000).
Proof.
  destruct example_sides as (-> & -> & -> & ->).
  destruct example_same_side as [HA HB]. split.
  - unfold get_best_p_value_set, merge_partial_p_set.
    destruct example_sides as (-> & -> & -> & ->).
    cbv zeta.
    rewrite example_forward_left, example_forward_right.
    cbv zeta.
    rewrite example_empty_sets. cbn [fst snd].
    rewrite bool_decide_eq_false_2; [f_equal; lra |].
    intros H. apply Rge_le in H.
    assert (H1 : 18 / 100 * (18 / 100) / (82 / 100 * (82 / 100)) < 1 / 1)
      by (apply frac_lt; lra).
    replace (1 * 1 / (1 * 1)) with (1 / 1) in H by (field; lra). lra.
  - unfold merge_partial_p_set. rewrite HA, HB. cbn [fst snd]. f_equal; lra.
Qed.

Lemma matcher_depletes_argument_sets_witness :
  ("A", "B").1 ∈ ["A"] /\ ("A", "B").2 ∈ ["B"] /\
  is_Some (cross_table !! ("A", "B")).
Proof.
  apply (proj1 (proj2 (matcher_depletes_argument_sets
                         ["A"] ["B"] eq_a_to_b eq_b_to_a cross_table))).
  unfold committed.
  change (loc cross_table (pair_list ["A"] ["B"] cross_table))
    with [(("A", "B"), 1 / 10)].
  eval_sort. by left.
Defined.

(** ** Bounds on the probabilities (C4) *)

(** C4, counterexample: for two models of one compound each, with the same
    id, [map_model_compounds] computes the prior 0.95 and the id marginal 1;
    the id channel then returns the no-match value 7.65. *)
Lemma no_match_likelihood_above_one :
  95 / 100 * INR (length [cpd_atp] `min` length [cpd_atp])
    / INR (length [cpd_atp] * length [cpd_atp]) = 95 / 100 /\
  count_pairs (fun c1 c2 => String.eqb (c_id c1) (c_id c2))
    [cpd_atp] [cpd_atp] / INR (length [cpd_atp] * length [cpd_atp]) = 1 /\
  compound_id_likelihood String.eqb cpd_atp cpd_atp (95 / 100) 1
  = Ok (65 / 100, 765 / 100) /\
  1 < 765 / 100.
Proof.
  split; [simpl; lra |]. split; [unfold count_pairs; simpl; lra |].
  split; [| lra].
  unfold compound_id_likelihood. cbn [c_id cpd_atp].
  change ("atp" =? "atp")%string with true. cbn iota.
  rewrite py_div_ok by lra. cbn [mbind exc_bind]. f_equal. f_equal.
  unfold py_max0. destruct (Rlt_dec _ _) as [_ | H]; [lra |].
  exfalso. apply H. lra.
Qed.

Lemma lh_ok_ones : lh_ok (Ok (1, 1)).
Proof. exists (1, 1). simpl. repeat split; lra. Qed.

Lemma lh_ok_step (marginal c prior : R) :
  prior < 1 -> 0 < c <= 1 ->
  lh_ok (q ← py_div (marginal - c * prior) (1 - prior); Ok (c, py_max0 q)).
Proof.
  intros Hp Hc. rewrite py_div_ok by lra. cbn [mbind exc_bind].
  eexists. split; [done |]. cbn [fst snd].
  split; [done | apply py_max0_nonneg].
Qed.

Lemma pow_unit_interval (x : R) (n : nat) : 0 < x <= 1 -> 0 < x ^ n <= 1.
Proof.
  intros Hx. induction n as [| n IH]; simpl; [lra |]. nra.
Qed.

Section ChannelBounds.

Variable id_equals : string -> string -> bool.
Variable name_equals : option string -> option string -> bool.
Variable formula_equals :
  option string -> option string -> option Z -> option Z -> bool.
Variables (prior marg marg_equal marg_not_equal : R).
Hypothesis prior_lt_1 : prior < 1.

Lemma compound_id_ok c1 c2 :
  lh_ok (compound_id_likelihood id_equals c1 c2 prior marg).
Proof.
  unfold compound_id_likelihood.
  destruct (id_equals _ _); apply lh_ok_step; lra.
Qed.

Lemma compound_name_ok c1 c2 :
  lh_ok (compound_name_likelihood name_equals c1 c2 prior marg).
Proof.
  unfold compound_name_likelihood.
  destruct (name_equals _ _); apply lh_ok_step; lra.
Qed.

Lemma compound_charge_ok c1 c2 :
  lh_ok (compound_charge_likelihood c1 c2 prior marg_equal marg_not_equal).
Proof.
  unfold compound_charge_likelihood.
  destruct (c_charge c1), (c_charge c2); try apply lh_ok_ones.
  destruct (bool_decide _); apply lh_ok_step; lra.
Qed.

Lemma compound_formula_ok c1 c2 :
  lh_ok (compound_formula_likelihood formula_equals c1 c2
           prior marg_equal marg_not_equal).
Proof.
  unfold compound_formula_likelihood.
  destruct (c_formula c1), (c_formula c2); try apply lh_ok_ones.
  destruct (formula_equals _ _ _ _); apply lh_ok_step; lra.
Qed.

Lemma compound_kegg_ok c1 c2 :
  lh_ok (compound_kegg_likelihood c1 c2 prior marg_equal marg_not_equal).
Proof.
  unfold compound_kegg_likelihood.
  destruct (c_kegg c1), (c_kegg c2); try apply lh_ok_ones.
  destruct (bool_decide _); apply lh_ok_step; lra.
Qed.

Lemma reaction_id_ok r1 r2 :
  lh_ok (reaction_id_likelihood id_equals r1 r2
           prior marg_equal marg_not_equal).
Proof.
  unfold reaction_id_likelihood.
  destruct (id_equals _ _); apply lh_ok_step; lra.
Qed.

Lemma reaction_name_ok r1 r2 :
  lh_ok (reaction_name_likelihood name_equals r1 r2 prior marg).
Proof.
  unfold reaction_name_likelihood.
  destruct (name_equals _ _); apply lh_ok_step; lra.
Qed.

End ChannelBounds.

Lemma reaction_genes_ok r1 r2 : lh_ok (reaction_genes_likelihood r1 r2).
Proof.
  unfold reaction_genes_likelihood.
  destruct (r_genes r1) as [g1 |], (r_genes r2) as [g2 |];
    try apply lh_ok_ones.
  eexists. split; [done |]. cbn [fst snd].
  pose proof (pow_unit_interval (99 / 100) (size (g1 ∩ g2)) ltac:(lra)).
  pose proof (pow_unit_interval (1 / 100)
                (size ((g1 ∖ g2) ∪ (g2 ∖ g1))) ltac:(lra)).
  pose proof (pow_unit_interval (10 / 100) (size (g1 ∩ g2)) ltac:(lra)).
  pose proof (pow_unit_interval (90 / 100)
                (size ((g1 ∖ g2) ∪ (g2 ∖ g1))) ltac:(lra)).
  repeat split; nra.
Qed.

(** *** The equation channel *)

Lemma ln_nonpos (t : R) : 0 < t <= 1 -> ln t <= 0.
Proof.
  intros [H0 H1]. destruct (Req_dec t 1) as [-> | Hne].
  - rewrite ln_1. lra.
  - left. rewrite <- ln_1. apply ln_increasing; lra.
Qed.

Lemma exp_nonpos (x : R) : x <= 0 -> 0 < exp x <= 1.
Proof.
  intros Hx. split; [apply exp_pos |].
  destruct (Req_dec x 0) as [-> | Hne].
  - rewrite exp_0. lra.
  - left. rewrite <- exp_0. apply exp_increasing. lra.
Qed.

Lemma commit_nonpos (st : mstate) (rw : row) :
  0 <= rw.2 <= 1 -> p_match st <= 0 -> p_no_match st <= 0 ->
  p_match (commit st rw) <= 0 /\ p_no_match (commit st rw) <= 0.
Proof.
  intros Hs Hm Hn. rewrite commit_unfold.
  destruct (both_present st rw); [| done]. cbn [p_match p_no_match].
  pose proof (ln_nonpos (rw.2 * (9 / 10) + (1 - rw.2) * (1 / 10))
                ltac:(lra)).
  pose proof (ln_nonpos (rw.2 * (1 / 10) + (1 - rw.2) * (9 / 10))
                ltac:(lra)).
  lra.
Qed.

Lemma foldl_commit_nonpos (rows : list row) (st : mstate) :
  Forall (fun rw => 0 <= rw.2 <= 1) rows ->
  p_match st <= 0 -> p_no_match st <= 0 ->
  p_match (foldl commit st rows) <= 0 /\
  p_no_match (foldl commit st rows) <= 0.
Proof.
  intros Hrows. revert st.
  induction Hrows as [| rw rows Hrw _ IH]; intros st Hm Hn; [done |].
  cbn [foldl]. destruct (commit_nonpos st rw Hrw Hm Hn). by apply IH.
Qed.

Lemma foldl_unmatched_nonpos (s : list string) (acc : lh) :
  acc.1 <= 0 -> acc.2 <= 0 ->
  (foldl unmatched acc s).1 <= 0 /\ (foldl unmatched acc s).2 <= 0.
Proof.
  revert acc. induction s as [| c s IH]; intros acc H1 H2; [done |].
  cbn [foldl]. apply IH; unfold unmatched; cbn [fst snd].
  - pose proof (ln_nonpos (1 / 10) ltac:(lra)). lra.
  - pose proof (ln_nonpos (9 / 10) ltac:(lra)). lra.
Qed.

Lemma matcher_positive (set1 set2 : list string) (cpd_pred : cpd_table) :
  0 < (reaction_equation_mapping_approx_max_likelihood
         set1 set2 cpd_pred).1.1 /\
  0 < (reaction_equation_mapping_approx_max_likelihood
         set1 set2 cpd_pred).1.2.
Proof.
  unfold reaction_equation_mapping_approx_max_likelihood. cbn [fst snd].
  split; apply exp_pos.
Qed.

Lemma matcher_unit (set1 set2 : list string) (cpd_pred : cpd_table) :
  scores_in_unit cpd_pred ->
  (reaction_equation_mapping_approx_max_likelihood
     set1 set2 cpd_pred).1.1 <= 1 /\
  (reaction_equation_mapping_approx_max_likelihood
     set1 set2 cpd_pred).1.2 <= 1.
Proof.
  intros Hu. unfold reaction_equation_mapping_approx_max_likelihood.
  cbn [fst snd].
  set (rows := sort_values_desc (loc cpd_pred (pair_list set1 set2 cpd_pred))).
  assert (Hrows : Forall (fun rw : row => 0 <= rw.2 <= 1) rows).
  { apply Forall_forall. intros [[c1 c2] x] Hrow.
    apply candidate_row in Hrow as (_ & _ & Hx). by apply (Hu (c1, c2)). }
  destruct (foldl_commit_nonpos rows (mkMstate 0 0 set1 set2) Hrows)
    as [Hm Hn]; [simpl; lra | simpl; lra |].
  destruct (foldl_unmatched_nonpos
              (cpd_set1 (foldl commit (mkMstate 0 0 set1 set2) rows))
              (p_match (foldl commit (mkMstate 0 0 set1 set2) rows),
               p_no_match (foldl commit (mkMstate 0 0 set1 set2) rows)))
    as [H1 H2]; [done | done |].
  destruct (foldl_unmatched_nonpos
              (cpd_set2 (foldl commit (mkMstate 0 0 set1 set2) rows))
              _ H1 H2) as [H3 H4].
  split; by apply exp_nonpos.
Qed.

Lemma merge_positive (l1 l2 : list string) (cpd_pred : cpd_table)
    (r1 r2 : list string) :
  0 < (merge_partial_p_set l1 l2 cpd_pred r1 r2).1.1 /\
  0 < (merge_partial_p_set l1 l2 cpd_pred r1 r2).1.2.
Proof.
  unfold merge_partial_p_set.
  pose proof (matcher_positive l1 l2 cpd_pred) as [Ha Hb].
  pose proof (matcher_positive r1 r2 cpd_pred) as [Hc Hd].
  destruct (reaction_equation_mapping_approx_max_likelihood l1 l2 cpd_pred)
    as [[a1 a2] ?].
  destruct (reaction_equation_mapping_approx_max_likelihood r1 r2 cpd_pred)
    as [[b1 b2] ?].
  cbn [fst snd] in *. split; by apply Rmult_lt_0_compat.
Qed.

Lemma merge_unit (l1 l2 : list string) (cpd_pred : cpd_table)
    (r1 r2 : list string) :
  scores_in_unit cpd_pred ->
  (merge_partial_p_set l1 l2 cpd_pred r1 r2).1.1 <= 1 /\
  (merge_partial_p_set l1 l2 cpd_pred r1 r2).1.2 <= 1.
Proof.
  intros Hu. unfold merge_partial_p_set.
  pose proof (matcher_positive l1 l2 cpd_pred) as [Ha Hb].
  pose proof (matcher_positive r1 r2 cpd_pred) as [Hc Hd].
  pose proof (matcher_unit l1 l2 cpd_pred Hu) as [Ha' Hb'].
  pose proof (matcher_unit r1 r2 cpd_pred Hu) as [Hc' Hd'].
  destruct (reaction_equation_mapping_approx_max_likelihood l1 l2 cpd_pred)
    as [[a1 a2] ?].
  destruct (reaction_equation_mapping_approx_max_likelihood r1 r2 cpd_pred)
    as [[b1 b2] ?].
  cbn [fst snd] in *. split; nra.
Qed.

Lemma get_best_p_value_set_positive
    (equation1 equation2 : Equation) (cpd_pred : cpd_table) :
  0 < (get_best_p_value_set equation1 equation2 cpd_pred).1 /\
  0 < (get_best_p_value_set equation1 equation2 cpd_pred).2.
Proof.
  unfold get_best_p_value_set.
  cbv zeta.
  pose proof (merge_positive (get_cpd_set equation1 true)
    (get_cpd_set equation2 true) cpd_pred (get_cpd_set equation1 false)
    (get_cpd_set equation2 false)) as Hf.
  destruct (merge_partial_p_set (get_cpd_set equation1 true) _ _ _ _)
    as [pf [[l1 l2] [r1 r2]]].
  cbv zeta.
  pose proof (merge_positive l1 r2 cpd_pred r1 l2) as Hr.
  destruct (merge_partial_p_set l1 r2 cpd_pred r1 l2) as [pr ?].
  cbn [fst] in Hf, Hr. by destruct (bool_decide _).
Qed.

Lemma get_best_p_value_set_unit
    (equation1 equation2 : Equation) (cpd_pred : cpd_table) :
  scores_in_unit cpd_pred ->
  (get_best_p_value_set equation1 equation2 cpd_pred).1 <= 1 /\
  (get_best_p_value_set equation1 equation2 cpd_pred).2 <= 1.
Proof.
  intros Hu. unfold get_best_p_value_set.
  cbv zeta.
  pose proof (merge_unit (get_cpd_set equation1 true)
    (get_cpd_set equation2 true) cpd_pred (get_cpd_set equation1 false)
    (get_cpd_set equation2 false) Hu) as Hf.
  destruct (merge_partial_p_set (get_cpd_set equation1 true) _ _ _ _)
    as [pf [[l1 l2] [r1 r2]]].
  cbv zeta.
  pose proof (merge_unit l1 r2 cpd_pred r1 l2 Hu) as Hr.
  destruct (merge_partial_p_set l1 r2 cpd_pred r1 l2) as [pr ?].
  cbn [fst] in Hf, Hr. by destruct (bool_decide _).
Qed.

(** *** From the channels to the posteriors *)

Lemma lh_ok_valid (r : exc lh) :
  lh_ok r -> exists l, r = Ok l /\ lh_valid l.
Proof. intros (l & -> & [H1 _] & H2). by exists l. Qed.

Lemma exc_map_forall {A B : Type} (f : A -> exc B) (P : B -> Prop)
    (l : list A) :
  (forall a, exists b, f a = Ok b /\ P b) ->
  exists bs, exc_map f l = Ok bs /\ length bs = length l /\ Forall P bs.
Proof.
  intros Hf. induction l as [| a l (bs & IH & Hlen & HP)].
  - by exists [].
  - destruct (Hf a) as (b & Hb & Pb). exists (b :: bs).
    cbn [exc_map]. rewrite Hb. cbn [mbind exc_bind]. rewrite IH.
    cbn [mbind exc_bind]. split; [done |].
    split; [simpl; by rewrite Hlen | by constructor].
Qed.

Lemma pairwise_valid {E : Type} (e_id : E -> string) (model1 model2 : list E)
    (likelihood : E -> E -> exc lh) :
  (forall e1 e2, exists l, likelihood e1 e2 = Ok l /\ lh_valid l) ->
  exists df : lh_frame,
    pairwise_likelihood e_id model1 model2 likelihood = Ok df /\
    length df = (length model1 * length model2)%nat /\
    Forall (fun rw => lh_valid rw.2) df.
Proof.
  intros Hl. unfold pairwise_likelihood.
  destruct (exc_map_forall
    (fun '(e1, e2) => p ← likelihood e1 e2; Ok ((e_id e1, e_id e2), p))
    (fun rw : (string * string) * lh => lh_valid rw.2)
    (list_prod model1 model2)) as (df & Hdf & Hlen & Hv).
  - intros [e1 e2]. destruct (Hl e1 e2) as (l & -> & Hv).
    by eexists.
  - exists df. by rewrite Hdf, Hlen, length_prod.
Qed.

Lemma df_scale_valid (df : lh_frame) :
  Forall (fun rw => lh_valid rw.2) df ->
  length (df_scale 1 df) = length df /\
  Forall (fun rw => lh_valid rw.2) (df_scale 1 df).
Proof.
  intros Hv. unfold df_scale. split; [apply length_fmap |].
  apply Forall_fmap. eapply Forall_impl; [exact Hv |].
  intros [k [a b]] [Ha Hb]. unfold lh_valid in *. simpl in *. lra.
Qed.

Lemma df_mul_valid (df1 df2 : lh_frame) :
  Forall (fun rw => lh_valid rw.2) df1 ->
  Forall (fun rw => lh_valid rw.2) df2 ->
  length df1 = length df2 ->
  length (df_mul df1 df2) = length df1 /\
  Forall (fun rw => lh_valid rw.2) (df_mul df1 df2).
Proof.
  intros H1. revert df2.
  induction H1 as [| [k [a1 b1]] df1 [Ha1 Hb1] _ IH];
    intros df2 H2 Hlen; [done |].
  destruct H2 as [| [k' [a2 b2]] df2 [Ha2 Hb2] H2]; [done |].
  cbn [df_mul zip_with]. simpl in Hlen.
  destruct (IH df2 H2 ltac:(lia)) as [IHl IHv].
  split; [simpl; f_equal; exact IHl |].
  constructor; [| exact IHv].
  unfold lh_valid in *. simpl in *.
  split; [by apply Rmult_lt_0_compat | by apply Rmult_le_pos].
Qed.

Lemma bayes_posterior_entry_bounds (prior : R) (l : lh) :
  0 < prior < 1 -> lh_valid l ->
  posterior_ok (bayes_posterior_entry prior l).
Proof.
  intros [Hp0 Hp1] [Hm Hn]. destruct l as [pm pn]. simpl in Hm, Hn.
  assert (H1 : 0 < prior * pm) by (apply Rmult_lt_0_compat; lra).
  assert (H2 : 0 <= (1 - prior) * pn) by (apply Rmult_le_pos; lra).
  exists (prior * pm / (prior * pm + (1 - prior) * pn)).
  split; [apply bayes_posterior_entry_some; lra |]. split.
  - apply Rdiv_lt_0_compat; lra.
  - replace 1 with (1 / 1) at 2 by lra. apply frac_le; lra.
Qed.

Lemma bayes_posterior_bounds (prior : R) (df : lh_frame) :
  0 < prior < 1 -> Forall (fun rw => lh_valid rw.2) df ->
  length (bayes_posterior prior df) = length df /\
  Forall (fun kv => posterior_ok kv.2) (bayes_posterior prior df).
Proof.
  intros Hp Hv. unfold bayes_posterior. split; [apply length_fmap |].
  apply Forall_fmap. eapply Forall_impl; [exact Hv |].
  intros [k l] Hl. by apply bayes_posterior_entry_bounds.
Qed.

(** The prior of a run on two collections that are not empty. *)
Lemma prior_in_unit (n m : nat) :
  (0 < n)%nat -> (0 < m)%nat ->
  0 < 95 / 100 * INR (n `min` m) / INR (n * m) < 1.
Proof.
  intros Hn Hm.
  assert (H1 : 0 < INR (n `min` m)) by (apply lt_0_INR; lia).
  assert (H2 : INR (n `min` m) <= INR (n * m)) by (apply le_INR; nia).
  assert (H3 : 0 < INR (n * m)) by lra.
  split.
  - apply Rdiv_lt_0_compat; lra.
  - replace 1 with (1 / 1) by lra. apply frac_lt; lra.
Qed.

(** *** The two mapping passes *)

Lemma py_floordiv_ok (n d : nat) : d <> 0%nat -> py_floordiv n d = Ok (n / d)%nat.
Proof. intros Hd. unfold py_floordiv. by rewrite bool_decide_eq_false_2. Qed.

Lemma bayes_posterior_series (prior : R) (n : nat) (df : lh_frame) :
  0 < prior < 1 -> length df = n -> Forall (fun rw => lh_valid rw.2) df ->
  series_ok n (bayes_posterior prior df).
Proof.
  intros Hp Hlen Hv. destruct (bayes_posterior_bounds prior df Hp Hv).
  split; [congruence | done].
Qed.

Lemma bind_Ok {A B : Type} (a : A) (k : A -> exc B) : (Ok a ≫= k) = k a.
Proof. done. Qed.

Lemma bind_py_div {B : Type} (x y : R) (k : R -> exc B) :
  y <> 0 -> (py_div x y ≫= k) = k (x / y).
Proof. intros Hy. by rewrite py_div_ok. Qed.

Lemma bind_py_floordiv {B : Type} (n d : nat) (k : nat -> exc B) :
  d <> 0%nat -> (py_floordiv n d ≫= k) = k (n / d)%nat.
Proof. intros Hd. by rewrite py_floordiv_ok. Qed.

Lemma foldl_operator_mul_ok (n : nat) (dfs : list lh_frame) (acc : lh_frame) :
  frame_ok n acc -> Forall (frame_ok n) dfs ->
  exists d, foldl operator_mul (Frame acc) dfs = Frame d /\ frame_ok n d.
Proof.
  intros Hacc Hdfs. revert acc Hacc.
  induction Hdfs as [| df dfs [Hlen Hv] _ IH]; intros acc [Hl Ha].
  - by exists acc.
  - cbn [foldl operator_mul].
    destruct (df_mul_valid acc df Ha Hv ltac:(congruence)) as [Hl' Hv'].
    apply IH. split; [congruence | done].
Qed.

Lemma likelihood_products_ok (n : nat) (df : lh_frame) (dfs : list lh_frame) :
  Forall (frame_ok n) (df :: dfs) ->
  exists d, likelihood_products (df :: dfs) = Frame d /\ frame_ok n d.
Proof.
  intros [[Hlen Hv] Hdfs]%Forall_cons.
  unfold likelihood_products. cbn [foldl operator_mul].
  destruct (df_scale_valid df Hv) as [Hl' Hv'].
  apply foldl_operator_mul_ok; [| done]. split; [congruence | done].
Qed.

Lemma sum_from_some (start : R) (bs : list bool) :
  sum_from start (Some <$> bs)
  = Ok (start + INR (length (filter (fun b => b = true) bs))).
Proof.
  revert start. induction bs as [| b bs IH]; intros start.
  - simpl. f_equal. lra.
  - rewrite fmap_cons. cbn [sum_from]. rewrite IH. f_equal.
    destruct b.
    + rewrite filter_cons_True by done. cbn [length]. rewrite S_INR. lra.
    + rewrite filter_cons_False by done. lra.
Qed.

Lemma pool_map_comparator {P : Type} (chunksize : nat)
    (tasks : list ((P -> bool) * P)) :
  chunksize <> 0%nat ->
  pool_map chunksize parallel_equel tasks
  = Ok (Some <$> ((fun task => task.1 task.2) <$> tasks)).
Proof.
  intros Hc. destruct chunksize as [| n]; [done |]. cbn [pool_map].
  induction tasks as [| [func params] tasks IH]; [done |].
  cbn [exc_map parallel_equel]. rewrite !bind_Ok, IH. by rewrite bind_Ok.
Qed.

(** A marginal computed through the pool, with a chunk size of at least
    one: the number of tasks whose comparator answers true. *)
Lemma bind_pool_sum {P B : Type} (chunksize : nat)
    (tasks : list ((P -> bool) * P)) (k : R -> exc B) :
  chunksize <> 0%nat ->
  (pool_map chunksize parallel_equel tasks ≫= fun result =>
     py_sum result ≫= k)
  = k (INR (length (filter (fun b => b = true)
                      ((fun task => task.1 task.2) <$> tasks)))).
Proof.
  intros Hc. rewrite pool_map_comparator by done. rewrite bind_Ok.
  unfold py_sum. rewrite sum_from_some, bind_Ok. f_equal. lra.
Qed.

(** The chunk size of a pass with at least one process and not more
    processes than pairs. *)
Lemma chunksize_pos (pairs nproc : nat) :
  (0 < nproc <= pairs)%nat -> (pairs / nproc)%nat <> 0%nat.
Proof.
  intros [H0 Hle]. pose proof (Nat.div_str_pos pairs nproc). lia.
Qed.

(** One step of a pass: the next pairwise table exists and is valid. *)
Ltac step_pairwise lem :=
  match goal with
  | |- context [mbind _ (pairwise_likelihood ?i ?m1 ?m2 ?f)] =>
      let df := fresh "df" in
      let Hdf := fresh "Hdf" in
      let Hlen := fresh "Hlen" in
      let Hv := fresh "Hv" in
      destruct (pairwise_valid i m1 m2 f) as (df & Hdf & Hlen & Hv);
      [ intros; apply lh_ok_valid; lem
      | rewrite Hdf, bind_Ok; clear Hdf; cbn beta ]
  end.

Lemma map_model_compounds_ok
    (id_equals : string -> string -> bool)
    (name_equals : option string -> option string -> bool)
    (formula_equals :
       option string -> option string -> option Z -> option Z -> bool)
    (model1 model2 : list Compound) (nproc : nat) (kegg : bool) :
  model1 <> [] -> model2 <> [] ->
  (0 < nproc <= length model1 * length model2)%nat ->
  exists tables : list series,
    map_model_compounds id_equals name_equals formula_equals
      model1 model2 nproc kegg = Ok tables /\
    length tables = 6%nat /\
    Forall (series_ok (length model1 * length model2)) tables.
Proof.
  intros H1 H2 Hnproc.
  assert (Hn : nproc <> 0%nat) by lia.
  pose proof (chunksize_pos _ _ Hnproc) as Hchunk.
  assert (Hl1 : (0 < length model1)%nat) by (destruct model1; [done | simpl; lia]).
  assert (Hl2 : (0 < length model2)%nat) by (destruct model2; [done | simpl; lia]).
  pose proof (prior_in_unit _ _ Hl1 Hl2) as Hprior.
  assert (Hpairs : INR (length model1 * length model2) <> 0)
    by (apply not_0_INR; nia).
  unfold map_model_compounds.
  rewrite (bind_py_div _ _ _ Hpairs); cbn beta.
  set (prior := 95 / 100 * INR (length model1 `min` length model2) /
                INR (length model1 * length model2)) in *.
  rewrite (bind_py_floordiv _ _ _ Hn); cbn beta.
  rewrite (bind_pool_sum _ _ _ Hchunk); cbn beta.
  rewrite (bind_py_div _ _ _ Hpairs); cbn beta.
  step_pairwise ltac:(apply compound_id_ok; lra).
  rewrite (bind_pool_sum _ _ _ Hchunk); cbn beta.
  rewrite (bind_py_div _ _ _ Hpairs); cbn beta.
  step_pairwise ltac:(apply compound_name_ok; lra).
  rewrite (bind_py_div _ _ _ Hpairs); cbn beta.
  rewrite (bind_py_div _ _ _ Hpairs); cbn beta.
  step_pairwise ltac:(apply compound_charge_ok; lra).
  rewrite (bind_pool_sum _ _ _ Hchunk); cbn beta.
  rewrite (bind_py_div _ _ _ Hpairs); cbn beta.
  rewrite (bind_py_div _ _ _ Hpairs); cbn beta.
  step_pairwise ltac:(apply compound_formula_ok; lra).
  assert (Hk : exists df3 : lh_frame,
    (if kegg
     then
       compound_kegg_equal_marg ←
         py_div (count_pairs (fun c1 c2 =>
                   both_defined_and (fun k1 k2 => bool_decide (k1 = k2))
                                    (c_kegg c1) (c_kegg c2))
                   model1 model2) (INR (length model1 * length model2));
       compound_kegg_not_equal_marg ←
         py_div (count_pairs (fun c1 c2 =>
                   both_defined_and (fun k1 k2 => bool_decide (k1 <> k2))
                                    (c_kegg c1) (c_kegg c2))
                   model1 model2) (INR (length model1 * length model2));
       pairwise_likelihood c_id model1 model2 (fun c1 c2 =>
         compound_kegg_likelihood c1 c2 prior
           compound_kegg_equal_marg compound_kegg_not_equal_marg)
     else pairwise_likelihood c_id model1 model2 fake_likelihood) = Ok df3 /\
    frame_ok (length model1 * length model2) df3).
  { destruct kegg.
    - rewrite (bind_py_div _ _ _ Hpairs); cbn beta.
      rewrite (bind_py_div _ _ _ Hpairs); cbn beta.
      destruct (pairwise_valid c_id model1 model2 (fun c1 c2 =>
        compound_kegg_likelihood c1 c2 prior
          (count_pairs (fun c1 c2 =>
             both_defined_and (fun k1 k2 => bool_decide (k1 = k2))
                              (c_kegg c1) (c_kegg c2)) model1 model2 /
           INR (length model1 * length model2))
          (count_pairs (fun c1 c2 =>
             both_defined_and (fun k1 k2 => bool_decide (k1 <> k2))
                              (c_kegg c1) (c_kegg c2)) model1 model2 /
           INR (length model1 * length model2))))
        as (df3 & Hdf3 & Hlen3 & Hv3).
      + intros. apply lh_ok_valid, compound_kegg_ok. lra.
      + by exists df3.
    - destruct (pairwise_valid c_id model1 model2 fake_likelihood)
        as (df3 & Hdf3 & Hlen3 & Hv3).
      + intros. apply lh_ok_valid, lh_ok_ones.
      + by exists df3. }
  destruct Hk as (df3 & -> & Hf3). rewrite bind_Ok; cbn beta.
  destruct (likelihood_products_ok (length model1 * length model2)
              df [df0; df1; df2; df3]) as (joint & -> & Hj1 & Hj2).
  { repeat constructor; try done; apply Hf3. }
  eexists. split; [done |]. split; [done |].
  destruct Hf3 as [Hlen3 Hv3].
  cbn [frame_of].
  repeat (apply Forall_cons; split; [by apply bayes_posterior_series |]).
  apply Forall_nil_2.
Qed.

Lemma reaction_equation_valid (r1 r2 : Reaction) (cpd_pred : cpd_table) :
  scores_in_unit cpd_pred ->
  exists l : lh,
    reaction_equation_compound_mapping_likelihood r1 r2 cpd_pred = Ok l /\
    0 < l.1 <= 1 /\ 0 < l.2 <= 1.
Proof.
  intros Hu. unfold reaction_equation_compound_mapping_likelihood.
  destruct (r_equation r1) as [e1 |], (r_equation r2) as [e2 |];
    try (exists (1, 1); simpl; repeat split; lra).
  eexists. split; [done |].
  destruct (get_best_p_value_set_positive e1 e2 cpd_pred).
  destruct (get_best_p_value_set_unit e1 e2 cpd_pred Hu).
  by repeat split.
Qed.

Lemma map_model_reactions_ok
    (id_equals : string -> string -> bool)
    (name_equals : option string -> option string -> bool)
    (model1 model2 : list Reaction) (cpd_pred : cpd_table)
    (nproc : nat) (gene : bool) :
  model1 <> [] -> model2 <> [] -> scores_in_unit cpd_pred ->
  (0 < nproc <= length model1 * length model2)%nat ->
  exists tables : list series,
    map_model_reactions id_equals name_equals
      model1 model2 cpd_pred nproc gene = Ok tables /\
    length tables = 5%nat /\
    Forall (series_ok (length model1 * length model2)) tables.
Proof.
  intros H1 H2 Hu Hnproc.
  assert (Hn : nproc <> 0%nat) by lia.
  pose proof (chunksize_pos _ _ Hnproc) as Hchunk.
  assert (Hl1 : (0 < length model1)%nat) by (destruct model1; [done | simpl; lia]).
  assert (Hl2 : (0 < length model2)%nat) by (destruct model2; [done | simpl; lia]).
  pose proof (prior_in_unit _ _ Hl1 Hl2) as Hprior.
  assert (Hpairs : INR (length model1 * length model2) <> 0)
    by (apply not_0_INR; nia).
  unfold map_model_reactions.
  rewrite (bind_py_div _ _ _ Hpairs); cbn beta.
  set (prior := 95 / 100 * INR (length model1 `min` length model2) /
                INR (length model1 * length model2)) in *.
  rewrite (bind_py_floordiv _ _ _ Hn); cbn beta.
  rewrite (bind_pool_sum _ _ _ Hchunk); cbn beta.
  rewrite (bind_py_div _ _ _ Hpairs); cbn beta.
  step_pairwise ltac:(apply reaction_id_ok; lra).
  rewrite (bind_pool_sum _ _ _ Hchunk); cbn beta.
  rewrite (bind_py_div _ _ _ Hpairs); cbn beta.
  step_pairwise ltac:(apply reaction_name_ok; lra).
  destruct (pairwise_valid r_id model1 model2 (fun r1 r2 =>
              reaction_equation_compound_mapping_likelihood r1 r2 cpd_pred))
    as (df1 & -> & Hlen1 & Hv1).
  { intros r1 r2.
    destruct (reaction_equation_valid r1 r2 cpd_pred Hu)
      as (l & -> & [? _] & [? _]).
    exists l. split; [done |]. split; [done | lra]. }
  rewrite bind_Ok; cbn beta.
  assert (Hg : exists df2 : lh_frame,
    (if gene
     then pairwise_likelihood r_id model1 model2 reaction_genes_likelihood
     else pairwise_likelihood r_id model1 model2 fake_likelihood) = Ok df2 /\
    frame_ok (length model1 * length model2) df2).
  { destruct gene.
    - destruct (pairwise_valid r_id model1 model2 reaction_genes_likelihood)
        as (df2 & Hdf2 & Hlen2 & Hv2).
      + intros. apply lh_ok_valid, reaction_genes_ok.
      + by exists df2.
    - destruct (pairwise_valid r_id model1 model2 fake_likelihood)
        as (df2 & Hdf2 & Hlen2 & Hv2).
      + intros. apply lh_ok_valid, lh_ok_ones.
      + by exists df2. }
  destruct Hg as (df2 & -> & Hf2). rewrite bind_Ok; cbn beta.
  destruct (likelihood_products_ok (length model1 * length model2)
              df [df0; df1; df2]) as (joint & -> & Hj1 & Hj2).
  { repeat constructor; try done; apply Hf2. }
  eexists. split; [done |]. split; [done |].
  destruct Hf2 as [Hlen2 Hv2]. cbn [frame_of].
  repeat (apply Forall_cons; split; [by apply bayes_posterior_series |]).
  apply Forall_nil_2.
Qed.

(** The scores of the example table are probabilities. *)
Lemma distinct_table_in_unit : scores_in_unit distinct_table.
Proof.
  intros p x Hx. apply elem_of_list_to_map_2 in Hx.
  repeat (apply elem_of_cons in Hx as [Hx | Hx];
          [injection Hx as _ ->; lra |]).
  by inversion Hx.
Qed.

(** C4, as amended: for a prior in (0, 1), every channel returns a p_match
    in (0, 1] and a p_no_match that is not negative (the marginal channels
    floor it at 0 and put no cap on it); on a compound table whose scores
    are probabilities the equation channel returns two values in (0, 1];
    every posterior of a likelihood pair with positive p_match and
    non-negative p_no_match is a number in (0, 1]; and on two collections
    that are not empty, with at least one process and not more processes
    than pairs (and, for the reactions, a compound table whose scores are
    probabilities), every posterior Series of [map_model_compounds] and of
    [map_model_reactions] has one such number per pair. *)
Theorem probabilities_bounded
    (id_equals : string -> string -> bool)
    (name_equals : option string -> option string -> bool)
    (formula_equals :
       option string -> option string -> option Z -> option Z -> bool)
    (c1 c2 : Compound) (r1 r2 : Reaction)
    (prior marg marg_equal marg_not_equal : R) (cpd_pred : cpd_table)
    (compounds1 compounds2 : list Compound)
    (reactions1 reactions2 : list Reaction)
    (nproc : nat) (kegg gene : bool) :
  0 < prior < 1 ->
  (lh_ok (compound_id_likelihood id_equals c1 c2 prior marg) /\
   lh_ok (compound_name_likelihood name_equals c1 c2 prior marg) /\
   lh_ok (compound_charge_likelihood c1 c2 prior marg_equal marg_not_equal) /\
   lh_ok (compound_formula_likelihood formula_equals c1 c2
            prior marg_equal marg_not_equal) /\
   lh_ok (compound_kegg_likelihood c1 c2 prior marg_equal marg_not_equal) /\
   lh_ok (reaction_id_likelihood id_equals r1 r2
            prior marg_equal marg_not_equal) /\
   lh_ok (reaction_name_likelihood name_equals r1 r2 prior marg) /\
   lh_ok (reaction_genes_likelihood r1 r2)) /\
  (scores_in_unit cpd_pred ->
   exists l : lh,
     reaction_equation_compound_mapping_likelihood r1 r2 cpd_pred = Ok l /\
     0 < l.1 <= 1 /\ 0 < l.2 <= 1) /\
  (forall l : lh,
     0 < l.1 -> 0 <= l.2 -> posterior_ok (bayes_posterior_entry prior l)) /\
  (compounds1 <> [] -> compounds2 <> [] ->
   (0 < nproc <= length compounds1 * length compounds2)%nat ->
   exists tables : list series,
     map_model_compounds id_equals name_equals formula_equals
       compounds1 compounds2 nproc kegg = Ok tables /\
     length tables = 6%nat /\
     Forall (series_ok (length compounds1 * length compounds2)) tables) /\
  (reactions1 <> [] -> reactions2 <> [] -> scores_in_unit cpd_pred ->
   (0 < nproc <= length reactions1 * length reactions2)%nat ->
   exists tables : list series,
     map_model_reactions id_equals name_equals
       reactions1 reactions2 cpd_pred nproc gene = Ok tables /\
     length tables = 5%nat /\
     Forall (series_ok (length reactions1 * length reactions2)) tables).
Proof.
  intros [Hp0 Hp1]. split; [| split; [| split; [| split]]].
  - repeat split_and.
    + by apply compound_id_ok.
    + by apply compound_name_ok.
    + by apply compound_charge_ok.
    + by apply compound_formula_ok.
    + by apply compound_kegg_ok.
    + by apply reaction_id_ok.
    + by apply reaction_name_ok.
    + apply reaction_genes_ok.
  - apply reaction_equation_valid.
  - intros l H1 H2. by apply bayes_posterior_entry_bounds.
  - apply map_model_compounds_ok.
  - apply map_model_reactions_ok.
Qed.

Lemma probabilities_bounded_witness :
  (exists tables : list series,
     map_model_compounds String.eqb (fun _ _ => false) (fun _ _ _ _ => true)
       [cpd_atp] [cpd_atp; cpd_unnamed] 2 false = Ok tables /\
     length tables = 6%nat /\
     Forall (series_ok 2) tables) /\
  (exists tables : list series,
     map_model_reactions String.eqb (fun _ _ => false)
       [rxn_gene] [rxn_gene; rxn_unnamed] distinct_table 1 true = Ok tables /\
     length tables = 5%nat /\
     Forall (series_ok 2) tables).
Proof.
  destruct (probabilities_bounded
              String.eqb (fun _ _ => false) (fun _ _ _ _ => true)
              cpd_atp cpd_atp rxn_gene rxn_gene
              (1 / 2) (1 / 4) (1 / 4) (1 / 4) distinct_table
              [cpd_atp] [cpd_atp; cpd_unnamed] [rxn_gene] [rxn_gene; rxn_unnamed]
              2 false true) as (_ & _ & _ & Hc & _); [lra |].
  destruct (probabilities_bounded
              String.eqb (fun _ _ => false) (fun _ _ _ _ => true)
              cpd_atp cpd_atp rxn_gene rxn_gene
              (1 / 2) (1 / 4) (1 / 4) (1 / 4) distinct_table
              [cpd_atp] [cpd_atp; cpd_unnamed] [rxn_gene] [rxn_gene; rxn_unnamed]
              1 false true) as (_ & _ & _ & _ & Hr); [lra |].
  split.
  - apply Hc; [done | done | simpl; lia].
  - apply Hr; [done | done | apply distinct_table_in_unit | simpl; lia].
Defined.

(** ** Empty collections (C5) *)

Lemma bind_py_div_no_pairs {B : Type} (x : R) (k : R -> exc B) :
  (py_div x (INR 0) ≫= k) = Raise ZeroDivisionError.
Proof.
  unfold py_div. destruct (Req_dec_T (INR 0) 0) as [_ | H]; [done |].
  exfalso. by apply H.
Qed.

(** C5, the code at the failing input: with an empty collection on either
    side the number of pairs is zero, and the first division of the pass,
    that of the prior, raises [ZeroDivisionError]; neither pass has a guard
    for it, so no table, empty or not, is returned. *)
Theorem empty_collection_raises
    (id_equals : string -> string -> bool)
    (name_equals : option string -> option string -> bool)
    (formula_equals :
       option string -> option string -> option Z -> option Z -> bool)
    (compounds1 compounds2 : list Compound)
    (reactions1 reactions2 : list Reaction) (cpd_pred : cpd_table)
    (nproc : nat) (kegg gene : bool) :
  (compounds1 = [] \/ compounds2 = [] ->
   map_model_compounds id_equals name_equals formula_equals
     compounds1 compounds2 nproc kegg = Raise ZeroDivisionError) /\
  (reactions1 = [] \/ reactions2 = [] ->
   map_model_reactions id_equals name_equals
     reactions1 reactions2 cpd_pred nproc gene = Raise ZeroDivisionError).
Proof.
  split; intros H.
  - assert (Hz : (length compounds1 * length compounds2)%nat = 0%nat)
      by (destruct H as [-> | ->]; simpl; lia).
    unfold map_model_compounds. rewrite Hz.
    apply bind_py_div_no_pairs.
  - assert (Hz : (length reactions1 * length reactions2)%nat = 0%nat)
      by (destruct H as [-> | ->]; simpl; lia).
    unfold map_model_reactions. rewrite Hz.
    apply bind_py_div_no_pairs.
Qed.

Lemma empty_collection_raises_witness :
  map_model_compounds String.eqb (fun _ _ => false) (fun _ _ _ _ => true)
    [] [cpd_atp] 1 false = Raise ZeroDivisionError /\
  map_model_reactions String.eqb (fun _ _ => false)
    [rxn_gene] [] ∅ 1 false = Raise ZeroDivisionError.
Proof.
  destruct (empty_collection_raises
              String.eqb (fun _ _ => false) (fun _ _ _ _ => true)
              [] [cpd_atp] [rxn_gene] [] ∅ 1 false false) as [Hc Hr].
  split; [apply Hc; by left | apply Hr; by right].
Defined.

(** * Further properties of the code *)

(** ** The sides of an equation *)

(** X1: [get_cpd_set] returns, without repetition, exactly the names of the
    compounds that occur in the equation with a negative value (left side)
    or with a positive value (right side); the size of the value plays no
    part, and a compound whose only value is zero is on neither side. *)
Theorem get_cpd_set_spec (equation : Equation) (c : string) :
  (c ∈ get_cpd_set equation true <->
     exists v : R, (c, v) ∈ equation /\ v < 0) /\
  (c ∈ get_cpd_set equation false <->
     exists v : R, (c, v) ∈ equation /\ 0 < v) /\
  NoDup (get_cpd_set equation true) /\
  NoDup (get_cpd_set equation false).
Proof.
  unfold get_cpd_set. cbv zeta.
  repeat split; try apply NoDup_remove_dups.
  - intros H. apply elem_of_remove_dups, list_elem_of_fmap in H
      as ([c' v] & -> & [Hv Hin]%list_elem_of_filter).
    exists v. simpl in *. split; [done | lra].
  - intros (v & Hin & Hv). apply elem_of_remove_dups, list_elem_of_fmap.
    exists (c, v). split; [done |]. apply list_elem_of_filter.
    simpl. split; [lra | done].
  - intros H. apply elem_of_remove_dups, list_elem_of_fmap in H
      as ([c' v] & -> & [Hv Hin]%list_elem_of_filter).
    exists v. simpl in *. split; [done | lra].
  - intros (v & Hin & Hv). apply elem_of_remove_dups, list_elem_of_fmap.
    exists (c, v). split; [done |]. apply list_elem_of_filter.
    simpl. split; [lra | done].
Qed.

(** ** The greedy matcher *)

Lemma foldl_unmatched_total (s : list string) (acc : lh) :
  foldl unmatched acc s
  = (acc.1 + INR (length s) * ln (1 / 10),
     acc.2 + INR (length s) * ln (9 / 10)).
Proof.
  revert acc. induction s as [| c s IH]; intros [a b].
  - simpl. f_equal; lra.
  - cbn [foldl]. rewrite IH. unfold unmatched. cbn [fst snd length].
    rewrite S_INR. f_equal; lra.
Qed.

Lemma exp_times_ln (a : R) (n : nat) : 0 < a -> exp (INR n * ln a) = a ^ n.
Proof.
  intros Ha. induction n as [| n IH].
  - simpl. rewrite Rmult_0_l. apply exp_0.
  - rewrite S_INR, Rmult_plus_distr_r, Rmult_1_l, exp_plus, IH, exp_ln by done.
    simpl. lra.
Qed.

Lemma pair_list_no_candidate (set1 set2 : list string) (cpd_pred : cpd_table) :
  (forall c1 c2, c1 ∈ set1 -> c2 ∈ set2 -> cpd_pred !! (c1, c2) = None) ->
  pair_list set1 set2 cpd_pred = [].
Proof.
  intros Hnone. unfold pair_list. apply filter_none, Forall_forall.
  intros [c1 c2] Hin Hsome.
  apply list_elem_of_In, in_prod_iff in Hin as [H1 H2].
  rewrite <- !list_elem_of_In in *.
  rewrite (Hnone c1 c2 H1 H2) in Hsome. by destruct Hsome.
Qed.

(** X2: when no pair of the two sets is in the index of the compound table,
    the matcher commits nothing: it leaves both sets as they were and
    returns 0.1 and 0.9 to the power of the number of compounds in the two
    sets. *)
Theorem matcher_without_candidates
    (set1 set2 : list string) (cpd_pred : cpd_table) :
  (forall c1 c2, c1 ∈ set1 -> c2 ∈ set2 -> cpd_pred !! (c1, c2) = None) ->
  reaction_equation_mapping_approx_max_likelihood set1 set2 cpd_pred
  = (((1 / 10) ^ (length set1 + length set2),
      (9 / 10) ^ (length set1 + length set2)),
     (set1, set2)).
Proof.
  intros Hnone. unfold reaction_equation_mapping_approx_max_likelihood.
  rewrite (pair_list_no_candidate _ _ _ Hnone).
  cbn [loc omap list_omap sort_values_desc foldr foldl
       p_match p_no_match cpd_set1 cpd_set2].
  rewrite !foldl_unmatched_total. cbn [fst snd].
  rewrite !Rplus_0_l, <- !Rmult_plus_distr_r, <- !plus_INR.
  by rewrite !exp_times_ln by lra.
Qed.

Lemma matcher_without_candidates_witness :
  reaction_equation_mapping_approx_max_likelihood ["a"] ["y"] tie_table
  = (((1 / 10) ^ 2, (9 / 10) ^ 2), (["a"], ["y"])).
Proof.
  apply (matcher_without_candidates ["a"] ["y"] tie_table).
  intros c1 c2 H1 H2.
  repeat match goal with
         | H : _ ∈ _ :: _ |- _ => apply elem_of_cons in H as [-> | H]
         | H : _ ∈ [] |- _ => by inversion H
         end.
  reflexivity.
Defined.

Lemma committed_pairs_matching (rows : list row) (st : mstate) :
  NoDup (committed_pairs st rows).*1 /\
  NoDup (committed_pairs st rows).*2 /\
  (forall p, p ∈ committed_pairs st rows ->
     p.1 ∈ cpd_set1 st /\ p.2 ∈ cpd_set2 st).
Proof.
  revert st. induction rows as [| r rows IH]; intros st.
  - cbn [committed_pairs]. split; [apply NoDup_nil_2 |].
    split; [apply NoDup_nil_2 |]. intros p Hp. by inversion Hp.
  - cbn [committed_pairs]. destruct (both_present st r) eqn:Hb; [| apply IH].
    destruct (IH (commit st r)) as (N1 & N2 & Hin).
    assert (Hsub : forall p, p ∈ committed_pairs (commit st r) rows ->
              (p.1 ∈ cpd_set1 st /\ p.1 <> r.1.1) /\
              (p.2 ∈ cpd_set2 st /\ p.2 <> r.1.2)).
    { intros p Hp. destruct (Hin p Hp) as [H1 H2].
      rewrite commit_unfold, Hb in H1, H2. cbn [cpd_set1 cpd_set2] in H1, H2.
      unfold set_remove in H1, H2.
      apply list_elem_of_filter in H1 as [? ?].
      apply list_elem_of_filter in H2 as [? ?]. done. }
    unfold both_present in Hb. apply andb_true_iff in Hb as [Hb1 Hb2].
    apply bool_decide_eq_true in Hb1. apply bool_decide_eq_true in Hb2.
    rewrite !fmap_cons. split; [| split].
    + apply NoDup_cons. split; [| done].
      intros (p & Heq & Hp)%list_elem_of_fmap.
      destruct (Hsub p Hp) as [[_ Hne] _]. congruence.
    + apply NoDup_cons. split; [| done].
      intros (p & Heq & Hp)%list_elem_of_fmap.
      destruct (Hsub p Hp) as [_ [_ Hne]]. congruence.
    + intros p [-> | Hp]%elem_of_cons; [done |].
      destruct (Hsub p Hp) as [[? _] [? _]]. done.
Qed.

Lemma length_filter_not_in (s cs : list string) :
  NoDup s -> NoDup cs -> cs ⊆ s ->
  (length (filter (fun c => c ∉ cs) s) + length cs = length s)%nat.
Proof.
  intros Hs Hcs Hsub.
  rewrite <- (length_app (filter _ s) cs).
  apply Permutation_length.
  rewrite <- (filter_app_complement (fun c => c ∈ cs) s) at 2.
  rewrite Permutation_app_comm. apply Permutation_app; [| done].
  apply NoDup_Permutation; [done | by apply NoDup_filter |].
  intros c. rewrite list_elem_of_filter. split; [| tauto].
  intros Hc. split; [done | by apply Hsub].
Qed.

(** X3: the pairs the matcher commits form a one-to-one matching of
    compounds of the first set with compounds of the second: no compound is
    committed twice.  On sets without repetition, the compounds left in
    each set after the call are as many as the set had, less one per
    committed pair. *)
Theorem committed_is_a_matching
    (set1 set2 : list string) (cpd_pred : cpd_table) :
  NoDup (committed set1 set2 cpd_pred).*1 /\
  NoDup (committed set1 set2 cpd_pred).*2 /\
  (committed set1 set2 cpd_pred).*1 ⊆ set1 /\
  (committed set1 set2 cpd_pred).*2 ⊆ set2 /\
  (NoDup set1 ->
   (length (reaction_equation_mapping_approx_max_likelihood
              set1 set2 cpd_pred).2.1
    + length (committed set1 set2 cpd_pred) = length set1)%nat) /\
  (NoDup set2 ->
   (length (reaction_equation_mapping_approx_max_likelihood
              set1 set2 cpd_pred).2.2
    + length (committed set1 set2 cpd_pred) = length set2)%nat).
Proof.
  pose proof (committed_pairs_matching
    (sort_values_desc (loc cpd_pred (pair_list set1 set2 cpd_pred)))
    (mkMstate 0 0 set1 set2)) as H.
  fold (committed set1 set2 cpd_pred) in H. destruct H as (N1 & N2 & Hin).
  assert (S1 : (committed set1 set2 cpd_pred).*1 ⊆ set1).
  { intros c (p & -> & Hp)%list_elem_of_fmap. by apply (Hin p). }
  assert (S2 : (committed set1 set2 cpd_pred).*2 ⊆ set2).
  { intros c (p & -> & Hp)%list_elem_of_fmap. by apply (Hin p). }
  split; [done |]. split; [done |]. split; [done |]. split; [done |]. split.
  - intros Hs. rewrite matcher_sets. cbn [fst snd]. unfold unmatched1.
    rewrite <- (length_fmap fst (committed set1 set2 cpd_pred)).
    by apply length_filter_not_in.
  - intros Hs. rewrite matcher_sets. cbn [fst snd]. unfold unmatched2.
    rewrite <- (length_fmap snd (committed set1 set2 cpd_pred)).
    by apply length_filter_not_in.
Qed.

Lemma committed_is_a_matching_witness :
  (length (reaction_equation_mapping_approx_max_likelihood
             ["a"; "b"] ["x"; "y"] tie_table).2.1
   + length (committed ["a"; "b"] ["x"; "y"] tie_table)
   = length ["a"; "b"])%nat.
Proof.
  apply (committed_is_a_matching ["a"; "b"] ["x"; "y"] tie_table).
  apply (bool_decide_unpack _). vm_compute. exact I.
Defined.

Lemma sorted_head_max (rows : list row) (r : row) (l : list row) :
  sort_values_desc rows = r :: l -> forall r', r' ∈ rows -> r'.2 <= r.2.
Proof.
  intros Hs r' Hr'.
  pose proof (sort_values_desc_sorted rows) as Hsorted.
  rewrite <- (sort_values_desc_perm rows), Hs in Hr'.
  rewrite Hs in Hsorted. apply StronglySorted_inv in Hsorted as [_ Hall].
  apply elem_of_cons in Hr' as [-> | Hr']; [lra |].
  rewrite Forall_forall in Hall. by apply Hall.
Qed.

(** X4: a candidate pair whose score is greater than the score of every
    other candidate pair of the two sets is always committed: the greedy
    loop starts with the best pair. *)
Theorem best_candidate_is_committed
    (set1 set2 : list string) (cpd_pred : cpd_table)
    (c1 c2 : string) (x : R) :
  c1 ∈ set1 -> c2 ∈ set2 -> cpd_pred !! (c1, c2) = Some x ->
  (forall d1 d2 y,
     d1 ∈ set1 -> d2 ∈ set2 -> cpd_pred !! (d1, d2) = Some y ->
     (d1, d2) <> (c1, c2) -> y < x) ->
  (c1, c2) ∈ committed set1 set2 cpd_pred.
Proof.
  intros H1 H2 Hx Hmax. unfold committed.
  set (rows := loc cpd_pred (pair_list set1 set2 cpd_pred)).
  assert (Hin : ((c1, c2), x) ∈ sort_values_desc rows)
    by (by apply candidate_row).
  destruct (sort_values_desc rows) as [| r l] eqn:Hs; [by inversion Hin |].
  assert (Hr : r = ((c1, c2), x)).
  { destruct r as [[d1 d2] y].
    assert (Hrow : ((d1, d2), y) ∈ sort_values_desc rows)
      by (rewrite Hs; by left).
    apply candidate_row in Hrow as (Hd1 & Hd2 & Hy).
    destruct (decide ((d1, d2) = (c1, c2))) as [Heq | Hne].
    - injection Heq as -> ->. rewrite Hx in Hy. by injection Hy as ->.
    - exfalso. pose proof (Hmax d1 d2 y Hd1 Hd2 Hy Hne) as Hlt.
      assert (Hle : x <= y).
      { apply (sorted_head_max rows ((d1, d2), y) l Hs ((c1, c2), x)).
        rewrite <- (sort_values_desc_perm rows), Hs. exact Hin. }
      lra. }
  subst r. cbn [committed_pairs].
  assert (Hb : both_present (mkMstate 0 0 set1 set2) ((c1, c2), x) = true)
    by (unfold both_present; cbn [fst snd cpd_set1 cpd_set2];
        by rewrite !bool_decide_eq_true_2).
  rewrite Hb. by left.
Qed.

Lemma best_candidate_is_committed_witness :
  ("a", "x") ∈ committed ["a"; "b"] ["x"; "y"] distinct_table.
Proof.
  destruct distinct_table_lookup as (L1 & L2 & L3 & L4).
  apply (best_candidate_is_committed _ _ _ "a" "x" (9 / 10));
    [by left | by left | done |].
  intros d1 d2 y Hd1 Hd2 Hy Hne.
  repeat match goal with
         | H : _ ∈ _ :: _ |- _ => apply elem_of_cons in H as [-> | H]
         | H : _ ∈ [] |- _ => by inversion H
         end;
    rewrite ?L1, ?L2, ?L3, ?L4 in Hy; try done;
    injection Hy as <-; lra.
Defined.

Lemma product_cons (x : R) (l : list R) : product (x :: l) = x * product l.
Proof. done. Qed.

Lemma foldl_commit_product (cpd_pred : cpd_table) (rows : list row)
    (st : mstate) :
  Forall (fun rw => cpd_pred !! rw.1 = Some rw.2 /\ 0 <= rw.2 <= 1) rows ->
  exp (p_match (foldl commit st rows))
  = exp (p_match st)
    * product ((fun p => match_factor (score_of cpd_pred p)) <$> committed_pairs st rows) /\
  exp (p_no_match (foldl commit st rows))
  = exp (p_no_match st)
    * product ((fun p => no_match_factor (score_of cpd_pred p))
                 <$> committed_pairs st rows).
Proof.
  intros Hrows. revert st.
  induction Hrows as [| rw rows [Hlook Hs] _ IH]; intros st.
  - cbn. split; lra.
  - cbn [foldl committed_pairs]. destruct (IH (commit st rw)) as [IH1 IH2].
    rewrite IH1, IH2, commit_unfold.
    destruct (both_present st rw); [| done].
    assert (Hsc : score_of cpd_pred rw.1 = rw.2)
      by (unfold score_of; by rewrite Hlook).
    rewrite !fmap_cons, Hsc, !product_cons. cbn [p_match p_no_match].
    rewrite !exp_add_ln by lra. unfold match_factor, no_match_factor.
    split; ring.
Qed.

(** X5: with compound scores in [0, 1], the p_match the matcher returns is
    the product, over the committed pairs, of score*0.9 + (1-score)*0.1,
    times 0.1 for every compound left unmatched in either set; p_no_match
    is the same product with 0.1 and 0.9 exchanged. *)
Theorem matcher_product_form
    (set1 set2 : list string) (cpd_pred : cpd_table) :
  scores_in_unit cpd_pred ->
  (reaction_equation_mapping_approx_max_likelihood set1 set2 cpd_pred).1
  = (product ((fun p => match_factor (score_of cpd_pred p))
                <$> committed set1 set2 cpd_pred)
     * (1 / 10) ^ (length (unmatched1 set1 set2 cpd_pred)
                   + length (unmatched2 set1 set2 cpd_pred)),
     product ((fun p => no_match_factor (score_of cpd_pred p))
                <$> committed set1 set2 cpd_pred)
     * (9 / 10) ^ (length (unmatched1 set1 set2 cpd_pred)
                   + length (unmatched2 set1 set2 cpd_pred))).
Proof.
  intros Hu.
  pose proof (matcher_sets set1 set2 cpd_pred) as Hsets.
  unfold reaction_equation_mapping_approx_max_likelihood in *.
  cbn [fst snd] in *. injection Hsets as <- <-.
  set (rows := sort_values_desc (loc cpd_pred (pair_list set1 set2 cpd_pred))).
  assert (Hrows : Forall (fun rw : row =>
            cpd_pred !! rw.1 = Some rw.2 /\ 0 <= rw.2 <= 1) rows).
  { apply Forall_forall. intros [[c1 c2] x] Hrow.
    apply candidate_row in Hrow as (_ & _ & Hx).
    split; [done | by apply (Hu (c1, c2))]. }
  destruct (foldl_commit_product cpd_pred rows (mkMstate 0 0 set1 set2) Hrows)
    as [Hm Hn].
  fold (committed set1 set2 cpd_pred) in Hm, Hn.
  cbn [p_match p_no_match] in Hm, Hn. rewrite exp_0, Rmult_1_l in Hm, Hn.
  rewrite !foldl_unmatched_total. cbn [fst snd].
  rewrite !Rplus_assoc, <- !Rmult_plus_distr_r, <- !plus_INR.
  rewrite !exp_plus, Hm, Hn, !exp_times_ln by lra. done.
Qed.

Lemma unit_table_scores (l : list ((string * string) * R)) :
  Forall (fun kv => 0 <= kv.2 <= 1) l ->
  scores_in_unit (list_to_map l).
Proof.
  intros Hl p x Hx. apply elem_of_list_to_map_2 in Hx.
  rewrite Forall_forall in Hl. by apply (Hl (p, x)).
Qed.

Lemma matcher_product_form_witness :
  (reaction_equation_mapping_approx_max_likelihood
     ["a"; "b"] ["x"; "y"] distinct_table).1
  = (product ((fun p => match_factor (score_of distinct_table p))
                <$> committed ["a"; "b"] ["x"; "y"] distinct_table)
     * (1 / 10) ^ (length (unmatched1 ["a"; "b"] ["x"; "y"] distinct_table)
                   + length (unmatched2 ["a"; "b"] ["x"; "y"] distinct_table)),
     product ((fun p => no_match_factor (score_of distinct_table p))
                <$> committed ["a"; "b"] ["x"; "y"] distinct_table)
     * (9 / 10) ^ (length (unmatched1 ["a"; "b"] ["x"; "y"] distinct_table)
                   + length (unmatched2 ["a"; "b"] ["x"; "y"] distinct_table))).
Proof.
  apply matcher_product_form. apply unit_table_scores.
  repeat (apply Forall_cons; split; [simpl; lra |]). apply Forall_nil_2.
Defined.

Lemma no_candidate_left (set1 set2 : list string) (cpd_pred : cpd_table)
    (c1 c2 : string) :
  c1 ∈ unmatched1 set1 set2 cpd_pred -> c2 ∈ unmatched2 set1 set2 cpd_pred ->
  cpd_pred !! (c1, c2) = None.
Proof.
  intros [Hn1 H1]%list_elem_of_filter [Hn2 H2]%list_elem_of_filter.
  destruct (cpd_pred !! (c1, c2)) as [x |] eqn:Hx; [| done]. exfalso.
  assert (Hrow : ((c1, c2), x) ∈ sort_values_desc
            (loc cpd_pred (pair_list set1 set2 cpd_pred)))
    by by apply candidate_row.
  destruct (visited_row_committed (mkMstate 0 0 set1 set2) _ _ Hrow H1 H2);
    [by apply Hn1 | by apply Hn2].
Qed.

Lemma matching_counts (set1 set2 : list string) (cpd_pred : cpd_table) :
  NoDup set1 -> NoDup set2 ->
  (length (unmatched1 set1 set2 cpd_pred)
   + length (committed set1 set2 cpd_pred) = length set1)%nat /\
  (length (unmatched2 set1 set2 cpd_pred)
   + length (committed set1 set2 cpd_pred) = length set2)%nat.
Proof.
  intros Hs1 Hs2.
  pose proof (committed_pairs_matching
    (sort_values_desc (loc cpd_pred (pair_list set1 set2 cpd_pred)))
    (mkMstate 0 0 set1 set2)) as H.
  fold (committed set1 set2 cpd_pred) in H. destruct H as (N1 & N2 & Hin).
  unfold unmatched1, unmatched2. split.
  - rewrite <- (length_fmap fst (committed set1 set2 cpd_pred)).
    apply length_filter_not_in; [done | done |].
    intros c (p & -> & Hp)%list_elem_of_fmap. by apply (Hin p).
  - rewrite <- (length_fmap snd (committed set1 set2 cpd_pred)).
    apply length_filter_not_in; [done | done |].
    intros c (p & -> & Hp)%list_elem_of_fmap. by apply (Hin p).
Qed.

(** X6: when the compound table holds every pair of the two sets (sets
    without repetition), the greedy loop commits as many pairs as the
    smaller set has compounds: it leaves the smaller set empty, and both
    sets empty when they have the same size. *)
Theorem matcher_complete_table
    (set1 set2 : list string) (cpd_pred : cpd_table) :
  NoDup set1 -> NoDup set2 ->
  (forall c1 c2, c1 ∈ set1 -> c2 ∈ set2 -> is_Some (cpd_pred !! (c1, c2))) ->
  length (committed set1 set2 cpd_pred) = (length set1 `min` length set2)%nat /\
  (length set1 = length set2 ->
   (reaction_equation_mapping_approx_max_likelihood set1 set2 cpd_pred).2
   = ([], [])).
Proof.
  intros Hs1 Hs2 Hall.
  destruct (matching_counts set1 set2 cpd_pred Hs1 Hs2) as [Hc1 Hc2].
  assert (Hempty : unmatched1 set1 set2 cpd_pred = [] \/
                   unmatched2 set1 set2 cpd_pred = []).
  { destruct (unmatched1 set1 set2 cpd_pred) as [| c1 u1] eqn:Hu1; [by left |].
    destruct (unmatched2 set1 set2 cpd_pred) as [| c2 u2] eqn:Hu2; [by right |].
    exfalso.
    assert (H1 : c1 ∈ unmatched1 set1 set2 cpd_pred) by (rewrite Hu1; by left).
    assert (H2 : c2 ∈ unmatched2 set1 set2 cpd_pred) by (rewrite Hu2; by left).
    pose proof (no_candidate_left _ _ _ _ _ H1 H2) as Hnone.
    apply list_elem_of_filter in H1 as [_ H1].
    apply list_elem_of_filter in H2 as [_ H2].
    destruct (Hall c1 c2 H1 H2) as [x Hx]. congruence. }
  assert (Hk : length (committed set1 set2 cpd_pred)
               = (length set1 `min` length set2)%nat).
  { destruct Hempty as [He | He]; rewrite He in *; simpl in *; lia. }
  split; [done |]. intros Hlen. rewrite matcher_sets.
  assert (length (unmatched1 set1 set2 cpd_pred) = 0%nat) by lia.
  assert (length (unmatched2 set1 set2 cpd_pred) = 0%nat) by lia.
  f_equal; by apply length_zero_iff_nil.
Qed.

Lemma matcher_complete_table_witness :
  length (committed ["A"; "B"] ["A"; "B"] cross_table)
  = (length ["A"; "B"] `min` length ["A"; "B"])%nat /\
  (length ["A"; "B"] = length ["A"; "B"] ->
   (reaction_equation_mapping_approx_max_likelihood
      ["A"; "B"] ["A"; "B"] cross_table).2 = ([], [])).
Proof.
  apply matcher_complete_table.
  - apply (bool_decide_unpack _). vm_compute. exact I.
  - apply (bool_decide_unpack _). vm_compute. exact I.
  - intros c1 c2 H1 H2.
    repeat match goal with
           | H : _ ∈ _ :: _ |- _ => apply elem_of_cons in H as [-> | H]
           | H : _ ∈ [] |- _ => by inversion H
           end; by eexists.
Defined.

(** ** The two hypotheses of [get_best_p_value_set] *)

Lemma get_best_p_value_set_unfold
    (equation1 equation2 : Equation) (cpd_pred : cpd_table) :
  get_best_p_value_set equation1 equation2 cpd_pred
  = (let left1 := get_cpd_set equation1 true in
     let right1 := get_cpd_set equation1 false in
     let left2 := get_cpd_set equation2 true in
     let right2 := get_cpd_set equation2 false in
     let p_forward :=
       (merge_partial_p_set left1 left2 cpd_pred right1 right2).1 in
     let p_reverse :=
       (merge_partial_p_set
          (unmatched1 left1 left2 cpd_pred) (unmatched2 right1 right2 cpd_pred)
          cpd_pred
          (unmatched1 right1 right2 cpd_pred) (unmatched2 left1 left2 cpd_pred)
       ).1 in
     if bool_decide (p_forward.1 / p_forward.2 >= p_reverse.1 / p_reverse.2)
     then p_forward else p_reverse).
Proof.
  unfold get_best_p_value_set, merge_partial_p_set. cbv zeta.
  pose proof (matcher_sets (get_cpd_set equation1 true)
                (get_cpd_set equation2 true) cpd_pred) as HL.
  pose proof (matcher_sets (get_cpd_set equation1 false)
                (get_cpd_set equation2 false) cpd_pred) as HR.
  destruct (reaction_equation_mapping_approx_max_likelihood
              (get_cpd_set equation1 true) (get_cpd_set equation2 true)
              cpd_pred) as [pl [l1 l2]].
  destruct (reaction_equation_mapping_approx_max_likelihood
              (get_cpd_set equation1 false) (get_cpd_set equation2 false)
              cpd_pred) as [pr [r1 r2]].
  cbn [snd] in HL, HR. injection HL as -> ->. injection HR as -> ->.
  destruct (reaction_equation_mapping_approx_max_likelihood
              (unmatched1 _ _ _) (unmatched2 _ _ _) cpd_pred) as [pa ?].
  destruct (reaction_equation_mapping_approx_max_likelihood
              (unmatched1 _ _ _) (unmatched2 _ _ _) cpd_pred) as [pb ?].
  done.
Qed.

(** X7: when the forward hypothesis commits every compound of the four
    sets, the reverse hypothesis is scored on four empty sets and is the
    neutral pair (1, 1): [get_best_p_value_set] then returns the forward
    result if its p_match is at least its p_no_match, and (1, 1) otherwise,
    so that it never reports evidence against the match. *)
Theorem forward_match_of_all_compounds
    (equation1 equation2 : Equation) (cpd_pred : cpd_table) :
  (reaction_equation_mapping_approx_max_likelihood
     (get_cpd_set equation1 true) (get_cpd_set equation2 true) cpd_pred).2
  = ([], []) ->
  (reaction_equation_mapping_approx_max_likelihood
     (get_cpd_set equation1 false) (get_cpd_set equation2 false) cpd_pred).2
  = ([], []) ->
  get_best_p_value_set equation1 equation2 cpd_pred
  = (let p_forward :=
       (merge_partial_p_set
          (get_cpd_set equation1 true) (get_cpd_set equation2 true) cpd_pred
          (get_cpd_set equation1 false) (get_cpd_set equation2 false)).1 in
     if bool_decide (p_forward.1 >= p_forward.2) then p_forward else (1, 1)) /\
  (get_best_p_value_set equation1 equation2 cpd_pred).1
  >= (get_best_p_value_set equation1 equation2 cpd_pred).2.
Proof.
  intros HL HR. rewrite matcher_sets in HL, HR.
  injection HL as HL1 HL2. injection HR as HR1 HR2.
  rewrite get_best_p_value_set_unfold. cbv zeta.
  rewrite HL1, HL2, HR1, HR2.
  pose proof (merge_positive (get_cpd_set equation1 true)
    (get_cpd_set equation2 true) cpd_pred (get_cpd_set equation1 false)
    (get_cpd_set equation2 false)) as [Hf1 Hf2].
  destruct (merge_partial_p_set (get_cpd_set equation1 true) _ _ _ _).1
    as [f1 f2]. cbn [fst snd] in *.
  unfold merge_partial_p_set. rewrite example_empty_sets. cbn [fst snd].
  replace (1 * 1 / (1 * 1)) with 1 by (field; lra).
  replace (1 * 1) with 1 by lra.
  assert (Hiff : f1 / f2 >= 1 <-> f1 >= f2).
  { split; intros H.
    - apply Rle_ge. apply Rge_le in H.
      apply (Rmult_le_compat_r f2) in H; [| lra].
      replace (f1 / f2 * f2) with f1 in H by (field; lra). lra.
    - apply Rle_ge. replace 1 with (1 / 1) by lra. apply frac_le; lra. }
  rewrite (bool_decide_ext _ _ Hiff).
  split; [done |].
  destruct (bool_decide_reflect (f1 >= f2)); cbn [fst snd]; lra.
Qed.

Lemma forward_match_of_all_compounds_witness :
  get_best_p_value_set eq_a_to_b eq_b_to_a cross_table
  = (let p_forward :=
       (merge_partial_p_set
          (get_cpd_set eq_a_to_b true) (get_cpd_set eq_b_to_a true) cross_table
          (get_cpd_set eq_a_to_b false) (get_cpd_set eq_b_to_a false)).1 in
     if bool_decide (p_forward.1 >= p_forward.2) then p_forward else (1, 1)) /\
  (get_best_p_value_set eq_a_to_b eq_b_to_a cross_table).1
  >= (get_best_p_value_set eq_a_to_b eq_b_to_a cross_table).2.
Proof.
  apply forward_match_of_all_compounds.
  - destruct example_sides as (-> & _ & -> & _).
    by rewrite example_forward_left.
  - destruct example_sides as (_ & -> & _ & ->).
    by rewrite example_forward_right.
Defined.

(** ** The channels *)

(** X8: the charge, kegg and genes channels do not depend on the order of
    their two entities. *)
Theorem channels_symmetric (c1 c2 : Compound) (r1 r2 : Reaction)
    (prior marg_equal marg_not_equal : R) :
  compound_charge_likelihood c1 c2 prior marg_equal marg_not_equal
  = compound_charge_likelihood c2 c1 prior marg_equal marg_not_equal /\
  compound_kegg_likelihood c1 c2 prior marg_equal marg_not_equal
  = compound_kegg_likelihood c2 c1 prior marg_equal marg_not_equal /\
  reaction_genes_likelihood r1 r2 = reaction_genes_likelihood r2 r1.
Proof.
  unfold compound_charge_likelihood, compound_kegg_likelihood,
    reaction_genes_likelihood.
  split; [| split].
  - destruct (c_charge c1) as [z1 |], (c_charge c2) as [z2 |]; try done.
    by rewrite (bool_decide_ext (z1 = z2) (z2 = z1)) by (split; congruence).
  - destruct (c_kegg c1) as [k1 |], (c_kegg c2) as [k2 |]; try done.
    by rewrite (bool_decide_ext (k1 = k2) (k2 = k1)) by (split; congruence).
  - destruct (r_genes r1) as [g1 |], (r_genes r2) as [g2 |]; try done.
    by rewrite (comm_L (∩) g1 g2), (comm_L (∪) (g1 ∖ g2) (g2 ∖ g1)).
Qed.

Lemma pow_lt_base (a b : R) (n : nat) :
  0 <= a < b -> (0 < n)%nat -> a ^ n < b ^ n.
Proof.
  intros Hab Hn. induction n as [| n IH]; [lia |].
  destruct n as [| n]; [simpl; lra |].
  assert (H : a ^ S n < b ^ S n) by (apply IH; lia).
  assert (0 <= a ^ S n) by (apply pow_le; lra).
  change (a * a ^ S n < b * b ^ S n). nra.
Qed.

(** X9: the genes channel speaks for a match when the two reactions have the
    same genes, at least one, and against it when they share no gene and
    have at least one between them; two empty gene sets are neutral. *)
Theorem genes_evidence_direction (r1 r2 : Reaction) (g1 g2 : gset string) :
  r_genes r1 = Some g1 -> r_genes r2 = Some g2 ->
  exists p_match p_no_match : R,
    reaction_genes_likelihood r1 r2 = Ok (p_match, p_no_match) /\
    (g1 = g2 -> g1 <> ∅ -> p_no_match < p_match) /\
    (g1 ## g2 -> g1 ∪ g2 <> ∅ -> p_match < p_no_match) /\
    (g1 = ∅ -> g2 = ∅ -> p_match = 1 /\ p_no_match = 1).
Proof.
  intros H1 H2. unfold reaction_genes_likelihood. rewrite H1, H2.
  eexists _, _. split; [done |]. split; [| split].
  - intros <- Hne.
    rewrite (idemp_L (∩) g1), (difference_diag_L g1), (left_id_L ∅ (∪)),
      size_empty.
    assert (Hn : (0 < size g1)%nat).
    { destruct (size g1) eqn:Hs; [| lia].
      apply size_empty_inv in Hs. by apply leibniz_equiv in Hs. }
    pose proof (pow_lt_base (10 / 100) (99 / 100) (size g1) ltac:(lra) Hn).
    simpl. lra.
  - intros Hd Hne.
    assert (Hi : g1 ∩ g2 = ∅) by (apply disjoint_intersection_L; done).
    rewrite Hi, size_empty.
    assert (Hn : (0 < size ((g1 ∖ g2) ∪ (g2 ∖ g1)))%nat).
    { rewrite (difference_disjoint_L g1 g2), (difference_disjoint_L g2 g1)
        by done.
      destruct (size (g1 ∪ g2)) eqn:Hs; [| lia].
      apply size_empty_inv in Hs. by apply leibniz_equiv in Hs. }
    pose proof (pow_lt_base (1 / 100) (90 / 100) _ ltac:(lra) Hn).
    simpl. lra.
  - intros -> ->.
    rewrite (idemp_L (∩) (∅ : gset string)),
      (difference_diag_L (∅ : gset string)), (left_id_L ∅ (∪)), size_empty.
    simpl. split; lra.
Qed.

Lemma genes_evidence_direction_witness :
  exists p_match p_no_match : R,
    reaction_genes_likelihood rxn_gene rxn_gene = Ok (p_match, p_no_match) /\
    p_no_match < p_match.
Proof.
  destruct (genes_evidence_direction rxn_gene rxn_gene {[ "g1" ]} {[ "g1" ]})
    as (pm & pn & H & Hsame & _); [done | done |].
  exists pm, pn. split; [done |]. apply Hsame; [done |].
  intros Hempty. assert (Hin : "g1" ∈ ({[ "g1" ]} : gset string))
    by by apply elem_of_singleton.
  rewrite Hempty in Hin. by apply not_elem_of_empty in Hin.
Defined.

Lemma py_max0_floor (x : R) : x <= 0 -> py_max0 x = 0.
Proof. intros Hx. unfold py_max0. destruct (Rlt_dec 0 x); [lra | done]. Qed.

Lemma floored_step (marginal c prior : R) :
  0 < prior < 1 -> marginal <= c * prior ->
  (q ← py_div (marginal - c * prior) (1 - prior); Ok (c, py_max0 q))
  = Ok (c, 0).
Proof.
  intros Hp Hm. rewrite py_div_ok by lra. cbn [mbind exc_bind].
  rewrite py_max0_floor; [done |].
  apply Rmult_le_reg_r with (1 - prior); [lra |].
  replace ((marginal - c * prior) / (1 - prior) * (1 - prior))
    with (marginal - c * prior) by (field; lra). lra.
Qed.

(** X10: when the marginal of the observed outcome is at most the channel's
    p_match constant times the prior, the floor at 0 applies: the id channel
    returns the no-match probability 0, and the posterior of that channel is
    exactly 1.  For equal ids this is the case when the id marginal is at
    most 0.65 times the prior, for different ids when one minus the id
    marginal is at most 0.35 times the prior. *)
Theorem floored_no_match_gives_certainty
    (id_equals : string -> string -> bool) (c1 c2 : Compound)
    (prior marg : R) :
  0 < prior < 1 ->
  (if id_equals (c_id c1) (c_id c2)
   then marg <= 65 / 100 * prior
   else 1 - marg <= 35 / 100 * prior) ->
  exists p_match : R,
    compound_id_likelihood id_equals c1 c2 prior marg = Ok (p_match, 0) /\
    bayes_posterior_entry prior (p_match, 0) = Some 1.
Proof.
  intros Hp Hm. unfold compound_id_likelihood.
  destruct (id_equals (c_id c1) (c_id c2)).
  - exists (65 / 100). split; [by apply floored_step |].
    rewrite bayes_posterior_entry_some by lra. f_equal. field. lra.
  - exists (35 / 100). split; [by apply floored_step |].
    rewrite bayes_posterior_entry_some by lra. f_equal. field. lra.
Qed.

Lemma floored_no_match_gives_certainty_witness :
  exists p_match : R,
    compound_id_likelihood String.eqb cpd_atp cpd_atp (1 / 2) (1 / 4)
    = Ok (p_match, 0) /\
    bayes_posterior_entry (1 / 2) (p_match, 0) = Some 1.
Proof.
  apply floored_no_match_gives_certainty; [lra |].
  change (String.eqb (c_id cpd_atp) (c_id cpd_atp)) with true.
  cbn iota. lra.
Defined.

(** ** Bayes' rule *)

(** X12: for a prior in (0, 1), a positive p_match and a non-negative
    p_no_match, the posterior is above the prior exactly when p_match is
    greater than p_no_match, equal to it exactly when they are equal, and
    below it exactly when p_match is smaller. *)
Theorem posterior_against_prior (prior pm pn : R) :
  0 < prior < 1 -> 0 < pm -> 0 <= pn ->
  exists x : R,
    bayes_posterior_entry prior (pm, pn) = Some x /\
    (prior < x <-> pn < pm) /\ (x = prior <-> pm = pn) /\
    (x < prior <-> pm < pn).
Proof.
  intros [Hp0 Hp1] Hm Hn.
  assert (Hd : 0 < prior * pm + (1 - prior) * pn).
  { assert (0 < prior * pm) by (apply Rmult_lt_0_compat; lra).
    assert (0 <= (1 - prior) * pn) by (apply Rmult_le_pos; lra). lra. }
  eexists. split; [apply bayes_posterior_entry_some; lra |].
  set (d := prior * pm + (1 - prior) * pn) in *.
  assert (Hx : prior * pm / d - prior
               = prior * (1 - prior) * (pm - pn) / d)
    by (unfold d; field; unfold d in Hd; lra).
  assert (Hk : 0 < prior * (1 - prior) / d).
  { apply Rdiv_lt_0_compat; [apply Rmult_lt_0_compat; lra | done]. }
  assert (Hx' : prior * pm / d - prior = prior * (1 - prior) / d * (pm - pn))
    by (rewrite Hx; field; lra).
  repeat split; intros H; nra.
Qed.

Lemma posterior_against_prior_witness :
  exists x : R,
    bayes_posterior_entry (1 / 4) (9 / 10, 1 / 2) = Some x /\
    (1 / 4 < x <-> 1 / 2 < 9 / 10) /\ (x = 1 / 4 <-> 9 / 10 = 1 / 2) /\
    (x < 1 / 4 <-> 9 / 10 < 1 / 2).
Proof. apply posterior_against_prior; lra. Defined.

(** X13: the posterior depends on the ratio of the two likelihoods only:
    multiplying both by the same number other than zero changes nothing.
    A p_no_match above 1 is therefore as good as the pair scaled down. *)
Theorem posterior_scale_invariant (prior pm pn k : R) :
  k <> 0 ->
  bayes_posterior_entry prior (k * pm, k * pn)
  = bayes_posterior_entry prior (pm, pn).
Proof.
  intros Hk. unfold bayes_posterior_entry, np_div. cbn [fst snd].
  destruct (Req_dec_T (prior * pm + (1 - prior) * pn) 0) as [H0 | Hne].
  - destruct (Req_dec_T _ 0) as [_ | H]; [done |].
    exfalso. apply H.
    replace (prior * (k * pm) + (1 - prior) * (k * pn))
      with (k * (prior * pm + (1 - prior) * pn)) by ring.
    rewrite H0. ring.
  - destruct (Req_dec_T _ 0) as [H | _].
    + exfalso. apply Hne.
      replace (prior * (k * pm) + (1 - prior) * (k * pn))
        with (k * (prior * pm + (1 - prior) * pn)) in H by ring.
      apply Rmult_integral in H as [H | H]; [done | exact H].
    + f_equal. field. split; [done |].
      intros H. apply Hne. nra.
Qed.

Lemma posterior_scale_invariant_witness :
  bayes_posterior_entry (1 / 4) (10 * (65 / 100), 10 * (765 / 100))
  = bayes_posterior_entry (1 / 4) (65 / 100, 765 / 100).
Proof. apply posterior_scale_invariant. lra. Defined.

(** ** The raw mapping table and the best matches *)

(** X14: [get_raw_map], on posterior Series that share one index, returns a
    table on that index whose column [j] is the Series [j] of the tuple:
    column 0 is the joint posterior, the others are the channels'. *)
Theorem get_raw_map_columns (s0 : series) (rest : list series) :
  Forall (fun s : series => s.*1 = s0.*1) rest ->
  (get_raw_map (s0 :: rest)).*1 = s0.*1 /\
  forall (j : nat) (s : series),
    (s0 :: rest) !! j = Some s ->
    (fun r : raw_row => mjoin (r.2 !! j)) <$> get_raw_map (s0 :: rest)
    = s.*2.
Proof.
  intros Hidx. unfold get_raw_map. split.
  - apply list_eq. intros i.
    rewrite !list_lookup_fmap, list_lookup_imap.
    by destruct (s0 !! i) as [[k v] |].
  - intros j s Hs.
    assert (Hs' : s.*1 = s0.*1).
    { destruct j as [| j]; [by injection Hs as -> |].
      by apply (proj1 (Forall_lookup _ _) Hidx j). }
    apply list_eq. intros i.
    rewrite !list_lookup_fmap, list_lookup_imap.
    assert (Hi : fst <$> s !! i = fst <$> s0 !! i)
      by (by rewrite <- !list_lookup_fmap, Hs').
    destruct (s0 !! i) as [[k v] |] eqn:H0, (s !! i) as [[k' v'] |] eqn:Hsi;
      try done.
    cbn [fmap option_fmap option_map fst snd].
    rewrite list_lookup_fmap, Hs. cbn [fmap option_fmap option_map].
    by rewrite Hsi.
Qed.

Lemma get_raw_map_columns_witness :
  (fun r : raw_row => mjoin (r.2 !! 1%nat))
    <$> get_raw_map [[(("a", "x"), Some (9 / 10)); (("a", "y"), None)];
                     [(("a", "x"), Some (1 / 2)); (("a", "y"), Some (1 / 4))]]
  = [Some (1 / 2); Some (1 / 4)].
Proof.
  apply (proj2 (get_raw_map_columns
                  [(("a", "x"), Some (9 / 10)); (("a", "y"), None)]
                  [[(("a", "x"), Some (1 / 2)); (("a", "y"), Some (1 / 4))]]
                  ltac:(by repeat constructor)) 1%nat
           [(("a", "x"), Some (1 / 2)); (("a", "y"), Some (1 / 4))]).
  reflexivity.
Defined.

Lemma filter_filter_impl {A : Type} (P Q : A -> Prop)
    `{!forall x, Decision (P x)} `{!forall x, Decision (Q x)} (l : list A) :
  (forall x, Q x -> P x) -> filter Q (filter P l) = filter Q l.
Proof.
  intros HQP. induction l as [| a l IH]; [done |].
  destruct (decide (P a)) as [HP | HP].
  - rewrite (filter_cons_True P) by done.
    destruct (decide (Q a)).
    + rewrite !(filter_cons_True Q) by done. by rewrite IH.
    + by rewrite !(filter_cons_False Q) by done.
  - rewrite (filter_cons_False P) by done.
    rewrite (filter_cons_False Q); [done |]. intros HQ. by apply HP, HQP.
Qed.

(** X15: raising the threshold of [get_best_map] only drops rows: the best
    matches at a threshold are the best matches at any lower threshold
    whose joint posterior reaches the higher one, in the same order.  No
    row enters because the threshold went up. *)
Theorem get_best_map_threshold (raw_map : list raw_row) (low high : R) :
  low <= high ->
  get_best_map raw_map high
  = filter (fun r => value_ge (row_p r) high) (get_best_map raw_map low) /\
  sublist (get_best_map raw_map high) (get_best_map raw_map low).
Proof.
  intros Hle.
  assert (Heq : get_best_map raw_map high
                = filter (fun r => value_ge (row_p r) high)
                    (get_best_map raw_map low)).
  { unfold get_best_map. symmetry. apply filter_filter_impl.
    intros r. destruct (row_p r) as [x |]; simpl; [lra | done]. }
  split; [exact Heq |]. rewrite Heq. apply sublist_filter.
Qed.

Lemma get_best_map_threshold_witness :
  get_best_map example_raw_map (95 / 100)
  = filter (fun r => value_ge (row_p r) (95 / 100))
      (get_best_map example_raw_map (1 / 2)) /\
  sublist (get_best_map example_raw_map (95 / 100))
          (get_best_map example_raw_map (1 / 2)).
Proof. apply get_best_map_threshold. lra. Defined.

(** A group that holds a number holds a greatest number. *)
Lemma group_maximum (raw_map : list raw_row) (q : string) (r : raw_row)
    (x : R) :
  r ∈ raw_map -> r.1.1 = q -> row_p r = Some x ->
  exists r' y, r' ∈ raw_map /\ r'.1.1 = q /\ row_p r' = Some y /\ x <= y /\
    forall r'' z, r'' ∈ raw_map -> r''.1.1 = q -> row_p r'' = Some z -> z <= y.
Proof.
  revert r x. induction raw_map as [| a t IH]; intros r x Hr Hq Hx;
    [by inversion Hr |].
  assert (Htail : forall r0 x0, r0 ∈ t -> r0.1.1 = q -> row_p r0 = Some x0 ->
            exists r' y, r' ∈ a :: t /\ r'.1.1 = q /\ row_p r' = Some y /\
              x0 <= y /\
              forall r'' z, r'' ∈ a :: t -> r''.1.1 = q ->
                row_p r'' = Some z -> z <= y).
  { intros r0 x0 Hr0 Hq0 Hx0.
    destruct (IH r0 x0 Hr0 Hq0 Hx0) as (r' & y & Hr' & Hq' & Hy & Hle & Hmax).
    destruct (decide (a.1.1 = q)) as [Haq | Haq];
      [destruct (row_p a) as [xa |] eqn:Hxa;
         [destruct (Rle_lt_dec xa y) as [Hay | Hay] |] |].
    - exists r', y. repeat split; try done; [by right |].
      intros r'' z [-> | Hin]%elem_of_cons Hq'' Hz;
        [rewrite Hxa in Hz; injection Hz as <-; lra | by eapply Hmax].
    - exists a, xa. repeat split; try done; [by left | lra |].
      intros r'' z [-> | Hin]%elem_of_cons Hq'' Hz;
        [rewrite Hxa in Hz; injection Hz as <-; lra |].
      specialize (Hmax r'' z Hin Hq'' Hz). lra.
    - exists r', y. repeat split; try done; [by right |].
      intros r'' z [-> | Hin]%elem_of_cons Hq'' Hz;
        [congruence | by eapply Hmax].
    - exists r', y. repeat split; try done; [by right |].
      intros r'' z [-> | Hin]%elem_of_cons Hq'' Hz;
        [congruence | by eapply Hmax]. }
  apply elem_of_cons in Hr as [-> | Hr]; [| by eapply Htail].
  destruct (decide (Exists (fun r0 : raw_row =>
                              r0.1.1 = q /\ value_gt (row_p r0) x) t))
    as [(r0 & Hr0 & Hq0 & Hgt)%Exists_exists | Hno].
  - destruct (row_p r0) as [x0 |] eqn:Hx0; [| done]. simpl in Hgt.
    destruct (Htail r0 x0 Hr0 Hq0 Hx0) as (r' & y & ? & ? & ? & ? & ?).
    exists r', y. repeat split; try done. lra.
  - exists a, x.
    split; [by left |]. split; [done |]. split; [done |]. split; [lra |].
    intros r'' z [-> | Hin]%elem_of_cons Hq'' Hz;
      [rewrite Hx in Hz; injection Hz as <-; lra |].
    destruct (Rle_lt_dec z x) as [| Hlt]; [done |]. exfalso. apply Hno.
    apply Exists_exists. exists r''. rewrite Hz. by repeat split.
Qed.

(** X16: on a raw mapping table whose index has no duplicate label, every
    query entity that has a candidate with a joint posterior at or above
    the threshold is represented among the best matches, by a row that is
    at least as good as that candidate; and the rows [get_best_map] returns
    for one query all carry the same joint posterior. *)
Theorem get_best_map_covers (raw_map : list raw_row) (threshold : R) :
  NoDup raw_map.*1 ->
  (forall (r : raw_row) (x : R),
     r ∈ raw_map -> row_p r = Some x -> x >= threshold ->
     exists r' y, r' ∈ get_best_map raw_map threshold /\
       r'.1.1 = r.1.1 /\ row_p r' = Some y /\ x <= y) /\
  (forall r1 r2 : raw_row,
     r1 ∈ get_best_map raw_map threshold ->
     r2 ∈ get_best_map raw_map threshold ->
     r1.1.1 = r2.1.1 -> row_p r1 = row_p r2).
Proof.
  intros Hnd. rewrite get_best_map_filter by done. split.
  - intros r x Hr Hx Hge.
    destruct (group_maximum raw_map r.1.1 r x Hr eq_refl Hx)
      as (r' & y & Hr' & Hq' & Hy & Hle & Hmax).
    exists r', y. repeat split; try done.
    apply list_elem_of_filter. split; [rewrite Hy; simpl; lra |].
    apply list_elem_of_filter. split; [| done].
    apply rank_one_iff_max. exists y. split; [done |].
    intros r'' z Hin Hq'' Hz. apply (Hmax r'' z Hin); [congruence | done].
  - intros r1 r2 H1 H2 Hq.
    apply list_elem_of_filter in H1 as [_ [Hrk1 Hin1]%list_elem_of_filter].
    apply list_elem_of_filter in H2 as [_ [Hrk2 Hin2]%list_elem_of_filter].
    apply rank_one_iff_max in Hrk1 as (x1 & Hx1 & Hmax1).
    apply rank_one_iff_max in Hrk2 as (x2 & Hx2 & Hmax2).
    pose proof (Hmax1 r2 x2 Hin2 (eq_sym Hq) Hx2).
    pose proof (Hmax2 r1 x1 Hin1 Hq Hx1).
    rewrite Hx1, Hx2. f_equal. lra.
Qed.

Lemma get_best_map_covers_witness :
  exists r' y, r' ∈ get_best_map example_raw_map (1 / 2) /\
    r'.1.1 = "a" /\ row_p r' = Some y /\ 9 / 10 <= y.
Proof.
  assert (Hnd : NoDup example_raw_map.*1)
    by (apply (bool_decide_unpack _); vm_compute; exact I).
  apply (proj1 (get_best_map_covers example_raw_map (1 / 2) Hnd)
           (("a", "x"), [Some (9 / 10); Some (1 / 2)]) (9 / 10));
    [by left | done | lra].
Defined.

(** ** The number of processes *)

(** X17: with [nproc = 0] both mapping passes raise [ZeroDivisionError],
    whatever the models: the chunk size [pairs // nproc] is computed before
    the pool is created and before any likelihood. *)
Theorem no_process_raises
    (id_equals : string -> string -> bool)
    (name_equals : option string -> option string -> bool)
    (formula_equals :
       option string -> option string -> option Z -> option Z -> bool)
    (compounds1 compounds2 : list Compound)
    (reactions1 reactions2 : list Reaction)
    (cpd_pred : cpd_table) (kegg gene : bool) :
  map_model_compounds id_equals name_equals formula_equals
    compounds1 compounds2 0 kegg = Raise ZeroDivisionError /\
  map_model_reactions id_equals name_equals
    reactions1 reactions2 cpd_pred 0 gene = Raise ZeroDivisionError.
Proof.
  unfold map_model_compounds, map_model_reactions, py_div.
  split; by destruct (Req_dec_T _ 0).
Qed.

(** ** The switches of the two passes *)

Lemma exc_map_ext_in {A B : Type} (f g : A -> exc B) (l : list A) :
  (forall a, a ∈ l -> f a = g a) -> exc_map f l = exc_map g l.
Proof.
  induction l as [| a l IH]; intros H; [done |].
  cbn [exc_map]. rewrite (H a) by left.
  rewrite IH; [done |]. intros a' Ha'. apply H. by right.
Qed.

Lemma bind_ext_ok {A B : Type} (m : exc A) (k1 k2 : A -> exc B) :
  (forall a, m = Ok a -> k1 a = k2 a) -> (m ≫= k1) = (m ≫= k2).
Proof. intros H. destruct m as [a | e]; [by apply H | done]. Qed.

Lemma py_div_ok_inv (x y a : R) : py_div x y = Ok a -> y <> 0.
Proof. unfold py_div. by destruct (Req_dec_T y 0). Qed.

Lemma pairwise_ext_in {E : Type} (e_id : E -> string) (model1 model2 : list E)
    (f g : E -> E -> exc lh) :
  (forall e1 e2, e1 ∈ model1 -> e2 ∈ model2 -> f e1 e2 = g e1 e2) ->
  pairwise_likelihood e_id model1 model2 f
  = pairwise_likelihood e_id model1 model2 g.
Proof.
  intros H. unfold pairwise_likelihood. apply exc_map_ext_in.
  intros [e1 e2] Hin. apply list_elem_of_In, in_prod_iff in Hin as [H1 H2].
  rewrite <- !list_elem_of_In in *. by rewrite H.
Qed.

(** X18: the [kegg] switch makes no difference when no compound of one of
    the two models carries a KEGG id, and the [gene] switch makes none when
    no reaction of one of the two models carries a gene set: with the switch
    on, the pass returns what it returns with the switch off (the same
    tables or the same exception). *)
Theorem switch_without_annotation
    (id_equals : string -> string -> bool)
    (name_equals : option string -> option string -> bool)
    (formula_equals :
       option string -> option string -> option Z -> option Z -> bool)
    (compounds1 compounds2 : list Compound)
    (reactions1 reactions2 : list Reaction)
    (cpd_pred : cpd_table) (nproc : nat) :
  (Forall (fun c => c_kegg c = None) compounds1 \/
   Forall (fun c => c_kegg c = None) compounds2 ->
   map_model_compounds id_equals name_equals formula_equals
     compounds1 compounds2 nproc true
   = map_model_compounds id_equals name_equals formula_equals
       compounds1 compounds2 nproc false) /\
  (Forall (fun r => r_genes r = None) reactions1 \/
   Forall (fun r => r_genes r = None) reactions2 ->
   map_model_reactions id_equals name_equals
     reactions1 reactions2 cpd_pred nproc true
   = map_model_reactions id_equals name_equals
       reactions1 reactions2 cpd_pred nproc false).
Proof.
  split; intros Hnone.
  - unfold map_model_compounds.
    apply bind_ext_ok; intros prior Hpairs%py_div_ok_inv.
    do 17 (apply bind_ext_ok; intros ? _).
    f_equal. cbv iota.
    rewrite !(bind_py_div _ _ _ Hpairs); cbn beta.
    apply pairwise_ext_in. intros c1 c2 H1 H2.
    unfold compound_kegg_likelihood, fake_likelihood.
    destruct Hnone as [Hn | Hn].
    + by rewrite (proj1 (Forall_forall _ _) Hn c1 H1).
    + rewrite (proj1 (Forall_forall _ _) Hn c2 H2).
      by destruct (c_kegg c1).
  - unfold map_model_reactions.
    do 11 (apply bind_ext_ok; intros ? _).
    f_equal. cbv iota.
    apply pairwise_ext_in. intros r1 r2 H1 H2.
    unfold reaction_genes_likelihood, fake_likelihood.
    destruct Hnone as [Hn | Hn].
    + by rewrite (proj1 (Forall_forall _ _) Hn r1 H1).
    + rewrite (proj1 (Forall_forall _ _) Hn r2 H2).
      by destruct (r_genes r1).
Qed.

Lemma switch_without_annotation_witness :
  map_model_compounds String.eqb (fun _ _ => false) (fun _ _ _ _ => false)
    [cpd_unnamed] [cpd_atp; cpd_unnamed] 1 true
  = map_model_compounds String.eqb (fun _ _ => false) (fun _ _ _ _ => false)
      [cpd_unnamed] [cpd_atp; cpd_unnamed] 1 false.
Proof.
  apply (proj1 (switch_without_annotation String.eqb (fun _ _ => false)
                  (fun _ _ _ _ => false) [cpd_unnamed] [cpd_atp; cpd_unnamed]
                  [] [] ∅ 1)).
  left. by repeat constructor.
Defined.

(** ** The index of the tables *)

Lemma exc_map_index {E : Type} (e_id : E -> string)
    (likelihood : E -> E -> exc lh) (l : list (E * E)) (df : lh_frame) :
  exc_map (fun '(e1, e2) => p ← likelihood e1 e2; Ok ((e_id e1, e_id e2), p)) l
  = Ok df ->
  df.*1 = (fun '(e1, e2) => (e_id e1, e_id e2)) <$> l.
Proof.
  revert df. induction l as [| [e1 e2] l IH]; intros df H.
  - by injection H as <-.
  - cbn [exc_map] in H.
    destruct (likelihood e1 e2) as [p |]; [| discriminate H].
    rewrite !bind_Ok in H.
    destruct (exc_map _ l) as [bs |]; [| discriminate H].
    rewrite bind_Ok in H. injection H as <-.
    rewrite !fmap_cons. f_equal. by apply IH.
Qed.

Lemma pairwise_index {E : Type} (e_id : E -> string) (model1 model2 : list E)
    (likelihood : E -> E -> exc lh) (df : lh_frame) :
  pairwise_likelihood e_id model1 model2 likelihood = Ok df ->
  df.*1 = pair_index e_id model1 model2.
Proof. apply exc_map_index. Qed.

Lemma df_scale_index (x : R) (df : lh_frame) : (df_scale x df).*1 = df.*1.
Proof.
  unfold df_scale. rewrite <- list_fmap_compose.
  apply list_fmap_ext. by intros _ [k [a b]] _.
Qed.

Lemma df_mul_index (df1 df2 : lh_frame) :
  df2.*1 = df1.*1 -> (df_mul df1 df2).*1 = df1.*1.
Proof.
  revert df2. induction df1 as [| [k [a1 b1]] df1 IH];
    intros [| [k' [a2 b2]] df2] H; try done.
  rewrite !fmap_cons in H. injection H as _ H.
  cbn [df_mul zip_with]. rewrite !fmap_cons. f_equal. by apply IH.
Qed.

Lemma bayes_posterior_index (prior : R) (df : lh_frame) :
  (bayes_posterior prior df).*1 = df.*1.
Proof.
  unfold bayes_posterior. rewrite <- list_fmap_compose.
  apply list_fmap_ext. by intros _ [k l] _.
Qed.

Lemma df_mul_lookup (df1 df2 : lh_frame) (i : nat) (k : string * string)
    (l1 l2 : lh) :
  df1 !! i = Some (k, l1) -> df2 !! i = Some (k, l2) ->
  df_mul df1 df2 !! i = Some (k, (l1.1 * l2.1, l1.2 * l2.2)).
Proof.
  revert df2 i. induction df1 as [| r1 df1 IH]; intros [| r2 df2] [| i] H1 H2;
    try done.
  - simpl in H1, H2. injection H1 as ->. injection H2 as ->.
    by destruct l1, l2.
  - simpl in H1, H2. cbn [df_mul zip_with]. by apply IH.
Qed.

Lemma df_scale_lookup (x : R) (df : lh_frame) (i : nat)
    (k : string * string) (l : lh) :
  df !! i = Some (k, l) -> df_scale x df !! i = Some (k, (x * l.1, x * l.2)).
Proof.
  revert i. induction df as [| r df IH]; intros [| i] H; try done.
  - simpl in H. injection H as ->. by destruct l.
  - simpl in H. unfold df_scale. rewrite fmap_cons. by apply IH.
Qed.

Lemma index_lookup (df : lh_frame) (idx : list (string * string)) (i : nat)
    (k : string * string) :
  df.*1 = idx -> idx !! i = Some k -> exists l : lh, df !! i = Some (k, l).
Proof.
  intros <- Hk. rewrite list_lookup_fmap in Hk.
  destruct (df !! i) as [[k' l] |]; [| done].
  injection Hk as <-. by exists l.
Qed.

Lemma lookup_index (df : lh_frame) (idx : list (string * string)) (i : nat)
    (k : string * string) (l : lh) :
  df.*1 = idx -> df !! i = Some (k, l) -> idx !! i = Some k.
Proof. intros <- Hi. by rewrite list_lookup_fmap, Hi. Qed.

Lemma lh_product_cons (l : lh) (rows : list lh) :
  lh_product (l :: rows) = (l.1 * (lh_product rows).1, l.2 * (lh_product rows).2).
Proof. unfold lh_product. by rewrite !fmap_cons, !product_cons. Qed.

(** The reduction of [likelihood_products], from an accumulator that is a
    table: its index stays, and a row is the accumulator's row times the
    rows of the tables. *)
Lemma foldl_operator_mul_rows (idx : list (string * string))
    (dfs : list lh_frame) :
  Forall (fun df : lh_frame => df.*1 = idx) dfs ->
  forall acc : lh_frame, acc.*1 = idx ->
  exists d : lh_frame,
    foldl operator_mul (Frame acc) dfs = Frame d /\ d.*1 = idx /\
    forall (i : nat) (k : string * string) (l : lh),
      acc !! i = Some (k, l) ->
      exists rows : list lh,
        Forall2 (fun (df : lh_frame) l' => df !! i = Some (k, l')) dfs rows /\
        d !! i = Some (k, lh_product (l :: rows)).
Proof.
  induction 1 as [| df dfs Hdf _ IH]; intros acc Hacc.
  - exists acc. split; [done |]. split; [done |].
    intros i k l Hi. exists []. split; [constructor |].
    rewrite Hi. do 2 f_equal. destruct l as [a b].
    unfold lh_product, product. simpl. f_equal; lra.
  - cbn [foldl operator_mul].
    destruct (IH (df_mul acc df)) as (d & Hd & Hidx & Hrows).
    { rewrite df_mul_index; congruence. }
    exists d. split; [done |]. split; [done |].
    intros i k l Hi.
    pose proof (lookup_index acc idx i k l Hacc Hi) as Hk.
    destruct (index_lookup df idx i k Hdf Hk) as (l' & Hi').
    destruct (Hrows i k _ (df_mul_lookup _ _ _ _ _ _ Hi Hi'))
      as (rows & Hall & Hrow).
    exists (l' :: rows). split; [by constructor |].
    rewrite Hrow, !lh_product_cons. cbn [fst snd].
    do 3 f_equal; ring.
Qed.

(** X19: [likelihood_products] of tables that share one index is a table on
    that index, and each of its rows holds the product of the p_match values
    and the product of the p_no_match values met in that row of the tables:
    the joint likelihood of a pair is the product of its channel
    likelihoods. *)
Theorem likelihood_products_rows (idx : list (string * string))
    (df : lh_frame) (dfs : list lh_frame) :
  Forall (fun d : lh_frame => d.*1 = idx) (df :: dfs) ->
  exists joint : lh_frame,
    likelihood_products (df :: dfs) = Frame joint /\ joint.*1 = idx /\
    forall (i : nat) (k : string * string),
      idx !! i = Some k ->
      exists rows : list lh,
        Forall2 (fun (d : lh_frame) l => d !! i = Some (k, l))
                (df :: dfs) rows /\
        joint !! i = Some (k, lh_product rows).
Proof.
  intros [Hdf Hdfs]%Forall_cons.
  unfold likelihood_products. cbn [foldl operator_mul].
  destruct (foldl_operator_mul_rows idx dfs Hdfs (df_scale 1 df))
    as (joint & Hj & Hidx & Hrows).
  { by rewrite df_scale_index. }
  exists joint. split; [done |]. split; [done |].
  intros i k Hk.
  destruct (index_lookup df idx i k Hdf Hk) as (l & Hi).
  destruct (Hrows i k (1 * l.1, 1 * l.2)) as (rows & Hall & Hrow).
  { by apply df_scale_lookup. }
  exists (l :: rows). split; [by constructor |].
  rewrite Hrow, !lh_product_cons. cbn [fst snd].
  do 3 f_equal; ring.
Qed.

Lemma likelihood_products_rows_witness :
  exists joint : lh_frame,
    likelihood_products
      [[(("a", "x"), (65 / 100, 2)); (("a", "y"), (35 / 100, 0))];
       [(("a", "x"), (6 / 10, 1)); (("a", "y"), (4 / 10, 3))]]
    = Frame joint /\
    joint !! 1%nat
    = Some (("a", "y"), lh_product [(35 / 100, 0); (4 / 10, 3)]).
Proof.
  destruct (likelihood_products_rows [("a", "x"); ("a", "y")]
              [(("a", "x"), (65 / 100, 2)); (("a", "y"), (35 / 100, 0))]
              [[(("a", "x"), (6 / 10, 1)); (("a", "y"), (4 / 10, 3))]]
              ltac:(by repeat constructor))
    as (joint & Hj & Hidx & Hrows).
  exists joint. split; [exact Hj |].
  destruct (Hrows 1%nat ("a", "y") eq_refl) as (rows & Hall & Hrow).
  rewrite Hrow.
  apply Forall2_cons_inv_l in Hall as (l1 & rows1 & H1 & Hall & ->).
  apply Forall2_cons_inv_l in Hall as (l2 & rows2 & H2 & Hall & ->).
  apply Forall2_nil_inv_l in Hall as ->.
  simpl in H1, H2. injection H1 as <-. by injection H2 as <-.
Defined.

(** ** Looking up a pair *)

(** The index of a product of tables, from the indices of the tables. *)
Ltac solve_index :=
  first
    [ assumption
    | rewrite df_scale_index; solve_index
    | rewrite df_mul_index;
      [solve_index | etrans; [eassumption | symmetry; solve_index]] ].

(** One step back through a pass that returned. *)
Ltac bind_inv H :=
  match type of H with
  | (mbind _ ?m) = Ok _ =>
      let E := fresh "E" in
      destruct m eqn:E;
      [rewrite bind_Ok in H; cbn beta in H | discriminate H]
  end.

Lemma map_model_compounds_index
    (id_equals : string -> string -> bool)
    (name_equals : option string -> option string -> bool)
    (formula_equals :
       option string -> option string -> option Z -> option Z -> bool)
    (model1 model2 : list Compound) (nproc : nat) (kegg : bool)
    (tables : list series) :
  map_model_compounds id_equals name_equals formula_equals
    model1 model2 nproc kegg = Ok tables ->
  Forall (fun s : series => s.*1 = pair_index c_id model1 model2) tables.
Proof.
  unfold map_model_compounds. intros H. cbv zeta in H.
  do 19 bind_inv H.
  match goal with
  | E : (if kegg then _ else _) = Ok _ |- _ =>
      destruct kegg; [do 2 bind_inv E |]
  end;
  repeat match goal with
         | E : pairwise_likelihood _ _ _ _ = Ok _ |- _ =>
             apply pairwise_index in E
         end;
  injection H as <-;
  repeat (apply Forall_cons; split;
          [rewrite bayes_posterior_index; solve_index |]);
  apply Forall_nil_2.
Qed.

Lemma map_model_reactions_index
    (id_equals : string -> string -> bool)
    (name_equals : option string -> option string -> bool)
    (model1 model2 : list Reaction) (cpd_pred : cpd_table)
    (nproc : nat) (gene : bool) (tables : list series) :
  map_model_reactions id_equals name_equals
    model1 model2 cpd_pred nproc gene = Ok tables ->
  Forall (fun s : series => s.*1 = pair_index r_id model1 model2) tables.
Proof.
  unfold map_model_reactions. intros H. cbv zeta in H.
  do 12 bind_inv H.
  match goal with
  | E : (if gene then _ else _) = Ok _ |- _ => destruct gene
  end;
  repeat match goal with
         | E : pairwise_likelihood _ _ _ _ = Ok _ |- _ =>
             apply pairwise_index in E
         end;
  injection H as <-;
  repeat (apply Forall_cons; split;
          [rewrite bayes_posterior_index; solve_index |]);
  apply Forall_nil_2.
Qed.

Lemma pair_index_cons {E : Type} (e_id : E -> string) (e : E)
    (model1 model2 : list E) :
  pair_index e_id (e :: model1) model2
  = ((fun e2 => (e_id e, e_id e2)) <$> model2)
    ++ pair_index e_id model1 model2.
Proof.
  unfold pair_index. cbn [list_prod]. rewrite fmap_app. f_equal.
  change (map (fun y : E => (e, y)) model2) with (pair e <$> model2).
  rewrite <- list_fmap_compose. by apply list_fmap_ext.
Qed.

Lemma elem_of_pair_index {E : Type} (e_id : E -> string)
    (model1 model2 : list E) (k : string * string) :
  k ∈ pair_index e_id model1 model2 <->
  k.1 ∈ e_id <$> model1 /\ k.2 ∈ e_id <$> model2.
Proof.
  unfold pair_index. rewrite !list_elem_of_fmap. split.
  - intros ([e1 e2] & -> & Hin).
    apply list_elem_of_In, in_prod_iff in Hin as [H1 H2].
    rewrite <- !list_elem_of_In in *. split; by eexists.
  - intros [(e1 & H1 & Hin1) (e2 & H2 & Hin2)].
    exists (e1, e2). split; [destruct k; simpl in *; congruence |].
    apply list_elem_of_In, in_prod_iff. by rewrite <- !list_elem_of_In.
Qed.

Lemma NoDup_pair_index {E : Type} (e_id : E -> string)
    (model1 model2 : list E) :
  NoDup (e_id <$> model1) -> NoDup (e_id <$> model2) ->
  NoDup (pair_index e_id model1 model2).
Proof.
  intros H1 H2. induction model1 as [| e model1 IH]; [constructor |].
  rewrite fmap_cons in H1. apply NoDup_cons in H1 as [He H1].
  rewrite pair_index_cons. apply NoDup_app. split; [| split].
  - rewrite (list_fmap_compose e_id (pair (e_id e))).
    apply NoDup_fmap_2; [| done]. by intros x y [=].
  - intros k Hk Hk'. apply elem_of_pair_index in Hk' as [Hk' _].
    apply list_elem_of_fmap in Hk as (e2 & -> & _). by apply He.
  - by apply IH.
Qed.

Lemma series_getitem_unique (s : series) (k : string * string)
    (v : option R) :
  NoDup s.*1 -> (k, v) ∈ s -> series_getitem s k = Value v.
Proof.
  intros Hnd Hin. unfold series_getitem.
  assert (Hf : filter (fun kv : (string * string) * option R => kv.1 = k) s
               = [(k, v)]).
  { induction s as [| a t IH]; [by inversion Hin |].
    rewrite fmap_cons in Hnd. apply NoDup_cons in Hnd as [Ha Hnd].
    apply elem_of_cons in Hin as [<- | Hin].
    - rewrite filter_cons_True by done. f_equal.
      apply filter_none, Forall_forall. intros r Hr Heq. apply Ha.
      simpl. rewrite <- Heq. by apply list_elem_of_fmap_2.
    - rewrite filter_cons_False; [by apply IH |].
      intros Heq. apply Ha. rewrite Heq.
      by apply (list_elem_of_fmap_2 fst t (k, v)). }
  by rewrite Hf.
Qed.

Lemma series_getitem_absent (s : series) (k : string * string) :
  k ∉ s.*1 -> series_getitem s k = KeyError.
Proof.
  intros Hk. unfold series_getitem.
  rewrite filter_none; [done |].
  apply Forall_forall. intros r Hr Heq. apply Hk. rewrite <- Heq.
  by apply list_elem_of_fmap_2.
Qed.

(** What [map] gives on the joint posterior Series of a pass. *)
Lemma predictor_map_on_pass (n : nat) (idx : list (string * string))
    (tables : list series) :
  NoDup idx -> tables <> [] ->
  Forall (series_ok n) tables ->
  Forall (fun s : series => s.*1 = idx) tables ->
  (forall k, k ∈ idx ->
     exists x, predictor_map tables k.1 k.2 = Value (Some x) /\ 0 < x <= 1) /\
  (forall k, k ∉ idx -> predictor_map tables k.1 k.2 = KeyError).
Proof.
  intros Hnd Hne Hok Hidx.
  destruct tables as [| p rest]; [done |].
  apply Forall_cons in Hok as [[_ Hp] _].
  apply Forall_cons in Hidx as [Hpi _].
  unfold predictor_map. split.
  - intros k Hk. rewrite <- Hpi in Hk.
    apply list_elem_of_fmap in Hk as ([k' v] & -> & Hin).
    destruct (proj1 (Forall_forall _ _) Hp _ Hin) as (x & Hx & Hb).
    simpl in Hx. subst v. exists x. split; [| done].
    rewrite <- surjective_pairing.
    apply series_getitem_unique; [by rewrite Hpi | done].
  - intros k Hk. rewrite <- surjective_pairing.
    apply series_getitem_absent. by rewrite Hpi.
Qed.

(** X20: after [map_model_compounds] on two collections that are not
    empty and whose ids do not repeat, run with at least one process and
    not more processes than pairs, [map] answers for every pair of a
    compound of the first and a compound of the second model with one
    number, a joint posterior in (0, 1]; for ids that are not a pair of the
    two models the lookup raises [KeyError]. *)
Theorem compound_map_round_trip
    (id_equals : string -> string -> bool)
    (name_equals : option string -> option string -> bool)
    (formula_equals :
       option string -> option string -> option Z -> option Z -> bool)
    (model1 model2 : list Compound) (nproc : nat) (kegg : bool) :
  model1 <> [] -> model2 <> [] ->
  NoDup (c_id <$> model1) -> NoDup (c_id <$> model2) ->
  (0 < nproc <= length model1 * length model2)%nat ->
  exists tables : list series,
    map_model_compounds id_equals name_equals formula_equals
      model1 model2 nproc kegg = Ok tables /\
    (forall c1 c2, c1 ∈ model1 -> c2 ∈ model2 ->
       exists x, predictor_map tables (c_id c1) (c_id c2) = Value (Some x) /\
                 0 < x <= 1) /\
    (forall e1 e2, e1 ∉ c_id <$> model1 \/ e2 ∉ c_id <$> model2 ->
       predictor_map tables e1 e2 = KeyError).
Proof.
  intros H1 H2 Hnd1 Hnd2 Hnproc.
  destruct (map_model_compounds_ok id_equals name_equals formula_equals
              model1 model2 nproc kegg H1 H2 Hnproc)
    as (tables & Htab & Hlen & Hok).
  exists tables. split; [exact Htab |].
  destruct (predictor_map_on_pass (length model1 * length model2)
              (pair_index c_id model1 model2) tables)
    as [Hin Hout]; [by apply NoDup_pair_index | by destruct tables | done
                   | by eapply map_model_compounds_index |].
  split.
  - intros c1 c2 Hc1 Hc2. apply (Hin (c_id c1, c_id c2)).
    apply elem_of_pair_index. cbn [fst snd].
    split; by apply list_elem_of_fmap_2.
  - intros e1 e2 He. apply (Hout (e1, e2)).
    rewrite elem_of_pair_index. simpl. tauto.
Qed.

Lemma compound_map_round_trip_witness :
  exists tables : list series,
    map_model_compounds String.eqb (fun _ _ => false) (fun _ _ _ _ => false)
      [cpd_atp] [cpd_atp; cpd_unnamed] 2 false = Ok tables /\
    (exists x, predictor_map tables "atp" "cpd1" = Value (Some x) /\
               0 < x <= 1) /\
    predictor_map tables "cpd1" "atp" = KeyError.
Proof.
  destruct (compound_map_round_trip String.eqb (fun _ _ => false)
              (fun _ _ _ _ => false) [cpd_atp] [cpd_atp; cpd_unnamed] 2 false)
    as (tables & Htab & Hin & Hout);
    [done | done
     | apply (bool_decide_unpack _); vm_compute; exact I
     | apply (bool_decide_unpack _); vm_compute; exact I
     | simpl; lia |].
  exists tables. split; [exact Htab |]. split.
  - apply (Hin cpd_atp cpd_unnamed); [by left | right; by left].
  - apply Hout. left. simpl. intros Hc.
    apply list_elem_of_singleton in Hc. discriminate Hc.
Defined.

(** X21: the same for [map_model_reactions] and the reaction predictor's
    [map], for a compound table whose scores are probabilities. *)
Theorem reaction_map_round_trip
    (id_equals : string -> string -> bool)
    (name_equals : option string -> option string -> bool)
    (model1 model2 : list Reaction) (cpd_pred : cpd_table)
    (nproc : nat) (gene : bool) :
  model1 <> [] -> model2 <> [] ->
  NoDup (r_id <$> model1) -> NoDup (r_id <$> model2) ->
  scores_in_unit cpd_pred ->
  (0 < nproc <= length model1 * length model2)%nat ->
  exists tables : list series,
    map_model_reactions id_equals name_equals
      model1 model2 cpd_pred nproc gene = Ok tables /\
    (forall r1 r2, r1 ∈ model1 -> r2 ∈ model2 ->
       exists x, predictor_map tables (r_id r1) (r_id r2) = Value (Some x) /\
                 0 < x <= 1) /\
    (forall e1 e2, e1 ∉ r_id <$> model1 \/ e2 ∉ r_id <$> model2 ->
       predictor_map tables e1 e2 = KeyError).
Proof.
  intros H1 H2 Hnd1 Hnd2 Hu Hnproc.
  destruct (map_model_reactions_ok id_equals name_equals
              model1 model2 cpd_pred nproc gene H1 H2 Hu Hnproc)
    as (tables & Htab & Hlen & Hok).
  exists tables. split; [exact Htab |].
  destruct (predictor_map_on_pass (length model1 * length model2)
              (pair_index r_id model1 model2) tables)
    as [Hin Hout]; [by apply NoDup_pair_index | by destruct tables | done
                   | by eapply map_model_reactions_index |].
  split.
  - intros r1 r2 Hr1 Hr2. apply (Hin (r_id r1, r_id r2)).
    apply elem_of_pair_index. cbn [fst snd].
    split; by apply list_elem_of_fmap_2.
  - intros e1 e2 He. apply (Hout (e1, e2)).
    rewrite elem_of_pair_index. simpl. tauto.
Qed.

Lemma reaction_map_round_trip_witness :
  exists tables : list series,
    map_model_reactions String.eqb (fun _ _ => false)
      [rxn_unnamed; rxn_gene] [rxn_gene] distinct_table 1 true = Ok tables /\
    (exists x, predictor_map tables "rxn1" "rxn2" = Value (Some x) /\
               0 < x <= 1) /\
    predictor_map tables "rxn2" "rxn1" = KeyError.
Proof.
  destruct (reaction_map_round_trip String.eqb (fun _ _ => false)
              [rxn_unnamed; rxn_gene] [rxn_gene] distinct_table 1 true)
    as (tables & Htab & Hin & Hout);
    [done | done
     | apply (bool_decide_unpack _); vm_compute; exact I
     | apply (bool_decide_unpack _); vm_compute; exact I
     | apply distinct_table_in_unit
     | simpl; lia |].
  exists tables. split; [exact Htab |]. split.
  - apply (Hin rxn_unnamed rxn_gene); [by left | by left].
  - apply Hout. right. simpl. intros Hc.
    apply list_elem_of_singleton in Hc. discriminate Hc.
Defined.

(** ** More processes than pairs *)

Lemma py_sum_none (n : nat) :
  n <> 0%nat -> py_sum (replicate n (None : option bool)) = Raise TypeError.
Proof. by destruct n. Qed.

Lemma bind_pool_sum_no_chunk {P B : Type} (tasks : list ((P -> bool) * P))
    (k : R -> exc B) :
  tasks <> [] ->
  (pool_map 0 parallel_equel tasks ≫= fun result => py_sum result ≫= k)
  = Raise TypeError.
Proof.
  intros Ht. cbn [pool_map]. rewrite bind_Ok, py_sum_none; [done |].
  by destruct tasks.
Qed.

Lemma list_prod_not_nil {A B : Type} (l : list A) (k : list B) :
  l <> [] -> k <> [] -> list_prod l k <> [].
Proof. by destruct l, k. Qed.

(** X22: on two collections that are not empty, a pass run with more
    processes than pairs raises [TypeError]: the chunk size
    [pairs // nproc] is 0, the first [pool.map] runs no task and returns
    [None] for every pair, and [sum(result)] cannot add them. *)
Theorem more_processes_than_pairs_raises
    (id_equals : string -> string -> bool)
    (name_equals : option string -> option string -> bool)
    (formula_equals :
       option string -> option string -> option Z -> option Z -> bool)
    (compounds1 compounds2 : list Compound)
    (reactions1 reactions2 : list Reaction)
    (cpd_pred : cpd_table) (nproc : nat) (kegg gene : bool) :
  (compounds1 <> [] -> compounds2 <> [] ->
   (length compounds1 * length compounds2 < nproc)%nat ->
   map_model_compounds id_equals name_equals formula_equals
     compounds1 compounds2 nproc kegg = Raise TypeError) /\
  (reactions1 <> [] -> reactions2 <> [] ->
   (length reactions1 * length reactions2 < nproc)%nat ->
   map_model_reactions id_equals name_equals
     reactions1 reactions2 cpd_pred nproc gene = Raise TypeError).
Proof.
  split; intros H1 H2 Hn.
  - assert (Hpairs : INR (length compounds1 * length compounds2) <> 0).
    { apply not_0_INR. destruct compounds1, compounds2; simpl; try done; lia. }
    unfold map_model_compounds.
    rewrite (bind_py_div _ _ _ Hpairs); cbn beta.
    rewrite bind_py_floordiv by lia; cbn beta.
    rewrite Nat.div_small by done.
    apply bind_pool_sum_no_chunk.
    intros Hnil%fmap_nil_inv. by apply (list_prod_not_nil compounds1 compounds2).
  - assert (Hpairs : INR (length reactions1 * length reactions2) <> 0).
    { apply not_0_INR. destruct reactions1, reactions2; simpl; try done; lia. }
    unfold map_model_reactions.
    rewrite (bind_py_div _ _ _ Hpairs); cbn beta.
    rewrite bind_py_floordiv by lia; cbn beta.
    rewrite Nat.div_small by done.
    apply bind_pool_sum_no_chunk.
    intros Hnil%fmap_nil_inv. by apply (list_prod_not_nil reactions1 reactions2).
Qed.

Lemma more_processes_than_pairs_raises_witness :
  map_model_compounds String.eqb (fun _ _ => false) (fun _ _ _ _ => false)
    [cpd_atp] [cpd_atp; cpd_unnamed] 4 false = Raise TypeError /\
  map_model_reactions String.eqb (fun _ _ => false)
    [rxn_gene] [rxn_unnamed] ∅ 2 true = Raise TypeError.
Proof.
  split.
  - apply (proj1 (more_processes_than_pairs_raises String.eqb
                    (fun _ _ => false) (fun _ _ _ _ => false)
                    [cpd_atp] [cpd_atp; cpd_unnamed] [] [] ∅ 4 false false));
      [done | done | simpl; lia].
  - apply (proj2 (more_processes_than_pairs_raises String.eqb
                    (fun _ _ => false) (fun _ _ _ _ => false)
                    [] [] [rxn_gene] [rxn_unnamed] ∅ 2 false true));
      [done | done | simpl; lia].
Defined.
